(** * sitemap_extractor: a shallow embedding of [sitemap_extractor.py]

    The development follows the Python module top-down:
    strings and [str.strip], the [xml.etree.ElementTree] element tree and
    [findall], the three document functions ([is_sitemap_index],
    [extract_sitemaps_from_index], [extract_urls_from_sitemap]), the fetcher
    [read_sitemap], the recursive resolver [extract_all_urls] and the command
    [main].

    Conventions.
    - A Python [str] is a [string]; a character is a code point below 256.
    - Everything the program gets from outside (HTTP answers, files, the
      browser session, the XML parser of the standard library) is a field of
      the record [World].
    - Effects are explicit: a computation returns the list of events it
      performed, in chronological order, and either a value or the exception
      it raised.  The resolver also threads the [visited] set, which Python
      shares by reference among all recursive calls. *)

From Stdlib Require Import ZArith Ascii String List Bool Lia.
From stdpp Require Import gmap strings list.

#[local] Set Warnings "-register-all,-clear-no-such-hyp".
Local Open Scope Z_scope.

(** ** Strings *)

Module Str.

(** [str.isspace] on one code point below 256 (the table of CPython:
    TAB..CR, FS..US, SPACE, NEL, NBSP). *)
Definition isspace (c : ascii) : bool :=
  let n := N_of_ascii c in
  ((9 <=? n) && (n <=? 13) || (28 <=? n) && (n <=? 32)
   || (n =? 133) || (n =? 160))%N.

Fixpoint lstrip_by (p : ascii -> bool) (s : string) : string :=
  match s with
  | EmptyString => EmptyString
  | String c s' => if p c then lstrip_by p s' else s
  end.

Definition rstrip_by (p : ascii -> bool) (s : string) : string :=
  String.rev (lstrip_by p (String.rev s)).

Definition strip_by (p : ascii -> bool) (s : string) : string :=
  rstrip_by p (lstrip_by p s).

(** [s.strip()] *)
Definition strip (s : string) : string := strip_by isspace s.

(** [s.strip(c)] for a one-character argument *)
Definition strip_char (c : ascii) (s : string) : string :=
  strip_by (Ascii.eqb c) s.

(** [s.split(c)[0]]: what precedes the first [c], all of [s] without one *)
Fixpoint before_first (c : ascii) (s : string) : string :=
  match s with
  | EmptyString => EmptyString
  | String a s' => if Ascii.eqb a c then EmptyString
                   else String a (before_first c s')
  end.

(** [s.startswith(p)] *)
Definition startswith (p s : string) : bool := String.prefix p s.

(** [s.endswith(p)] *)
Definition endswith (p s : string) : bool :=
  String.prefix (String.rev p) (String.rev s).

(** [s[n:]] *)
Fixpoint drop (n : nat) (s : string) : string :=
  match n, s with
  | O, _ => s
  | S _, EmptyString => EmptyString
  | S n', String _ s' => drop n' s'
  end.

(** [s[:-1]] *)
Fixpoint drop_last (s : string) : string :=
  match s with
  | EmptyString => EmptyString
  | String _ EmptyString => EmptyString
  | String c s' => String c (drop_last s')
  end.

(** a string all of whose characters are white space, and that has one *)
Definition whitespace_only (s : string) : bool :=
  match s with
  | EmptyString => false
  | String _ _ => match lstrip_by isspace s with
                  | EmptyString => true
                  | String _ _ => false
                  end
  end.

End Str.

(** ** Element trees

    What [ET.fromstring] builds: every element has a [tag] (in Clark
    notation, ["{uri}local"], when it is in a namespace), the [text] that
    precedes its first child ([None] when there is none) and its children.
    Attributes and tails are never read by the program. *)

#[local] Unset Elimination Schemes.
Inductive Element : Type :=
  Elem (tag : string) (text : option string) (children : list Element).

#[local] Set Elimination Schemes.

Definition tag (e : Element) : string :=
  match e with Elem t _ _ => t end.
Definition text (e : Element) : option string :=
  match e with Elem _ x _ => x end.
Definition children (e : Element) : list Element :=
  match e with Elem _ _ cs => cs end.

(** [Element.iter()]: the element and its descendants in document order *)
Fixpoint iter (e : Element) : list Element :=
  match e with
  | Elem _ _ cs => e :: flat_map iter cs
  end.

(** Whether the step [T] of a path selects an element with the tag [el_tag]
    ([ElementPath], Python 3.8 and later): ["*"] and ["{*}*"] select every
    element, ["{}*"] those without namespace, ["{*}name"] the name in any
    namespace or in none, ["{uri}*"] every name of the namespace, ["{}name"]
    is [name], and any other step selects the elements with that very
    tag. *)
Definition tag_selected (T el_tag : string) : bool :=
  if String.eqb T "*" then true
  else if String.eqb T "{*}*" then true
  else if String.eqb T "{}*" then negb (Str.startswith "{" el_tag)
  else if Str.startswith "{*}" T then
    String.eqb el_tag (Str.drop 3 T) || Str.endswith (Str.drop 2 T) el_tag
  else if Str.endswith "}*" T then Str.startswith (Str.drop_last T) el_tag
  else if Str.startswith "{}" T then String.eqb el_tag (Str.drop 2 T)
  else String.eqb el_tag T.

(** [root.findall(".//T")] for a plain or Clark-notation tag [T]: the proper
    descendants of [root] that the step selects, in document order. *)
Definition findall_descendants (target : string) (root : Element)
  : list Element :=
  List.filter (fun e => tag_selected target (tag e))
              (flat_map iter (children root)).

(** ** Exceptions, messages, events *)

(** The exceptions the program raises or handles.  All are subclasses of
    [Exception]: [ET.ParseError] is a [SyntaxError], [typer.Exit] is
    [click.exceptions.Exit], a [RuntimeError]; [OtherException] stands for
    every other class ([OSError] from [open], [UnicodeDecodeError],
    [EOFError], ...), none of which is a [requests.RequestException] or a
    [ParseError]. *)
#[local] Unset Elimination Schemes.
Inductive exn : Type :=
| RequestException (why : request_failure)
| ParseError
| Exit (code : Z)
| OtherException (descr : string)
with request_failure : Type :=
| Transport (descr : string)
    (** raised by [requests] itself: [ConnectionError], [Timeout], ... *)
| PlaywrightFailed (source : string) (cause : exn)
    (** ["Playwright failed for {source}: {e}"] *)
| FailedAfter3 (source : string) (last_exc : option exn)
    (** ["Failed to fetch {source} after 3 attempts. Last error: {last_exc}"] *).
#[local] Set Elimination Schemes.

(** [isinstance(e, requests.RequestException)] *)
Definition is_RequestException (e : exn) : bool :=
  match e with RequestException _ => true | _ => false end.

(** [isinstance(e, ET.ParseError)] *)
Definition is_ParseError (e : exn) : bool :=
  match e with ParseError => true | _ => false end.

(** The texts given to [typer.echo], one constructor per f-string. *)
Inductive message : Type :=
| MsgPublicIP (ip : string)
| MsgNoPublicIP (e : exn)
| MsgHttpStatus (status_code : Z) (source : string) (attempt : nat)
    (** ["[Warning] HTTP {status_code} for {source} (attempt {attempt+1}/3)"] *)
| MsgDebugHeaders
| MsgFetchError (source : string) (attempt : nat) (e : exn)
    (** ["[Warning] Error fetching {source} (attempt {attempt+1}/3): {e}"] *)
| MsgPlaywrightFallback (source : string)
| MsgPlaywrightHowTo
| MsgNavigationFailed (e : exn)
| MsgBrowserStaysOpen
| MsgCaptureFailed (e : exn)
| MsgCaptureHelp
| MsgPlaywrightFailed (source : string) (e : exn)
| MsgPlaywrightMissing
| MsgErrorParsingXML
| MsgCouldNotFetch (source : string) (e : exn)
    (** ["[Warning] Could not fetch {source}: {e}"] *)
| MsgMaxDepth (source : string)
    (** ["Max sitemap index depth reached at {source}"] *)
| MsgIndexDetected (source : string)
| MsgChild (child : string)
| MsgCouldNotParse (source : string) (e : exn)
    (** ["[Warning] Could not parse {source}: {e}"] *)
| MsgMissingSource
| MsgNoURLs
| MsgTotal (n : nat)
| MsgError (e : exn)
| MsgInteractiveTitle (ip : option string)
| MsgExtracting
| MsgDone.

(** What a run does that can be observed.  [Fetch] and [Parse] are not
    printed by the program: they mark the places where [extract_all_urls]
    calls [read_sitemap] on a source and where it hands the document of a
    source to the classifier or to an extractor, each of which parses
    it. *)
Inductive event : Type :=
| Fetch (source : string)
| Parse (source : string)
| HttpGet (source : string) (attempt : nat)
| Sleep (attempt : nat)
| Prompt
| Echo (err : bool) (m : message).

Inductive outcome (A : Type) : Type :=
| Ret (a : A)
| Raise (e : exn).
Arguments Ret {A} a.
Arguments Raise {A} e.

(** ** Computations that only print and raise *)

Definition W (A : Type) : Type := list event * outcome A.

Module WM.
Definition ret {A} (a : A) : W A := ([], Ret a).
Definition raise {A} (e : exn) : W A := ([], Raise e).
Definition tell (evs : list event) : W unit := (evs, Ret tt).
Definition echo (err : bool) (m : message) : W unit := tell [Echo err m].
Definition bind {A B} (m : W A) (k : A -> W B) : W B :=
  match m with
  | (evs, Ret a) => let '(evs', r) := k a in (evs ++ evs', r)
  | (evs, Raise e) => (evs, Raise e)
  end.
(** [try: m  except C as e: h e], [catches] being [isinstance(_, C)] *)
Definition try_except {A} (m : W A) (catches : exn -> bool)
    (h : exn -> W A) : W A :=
  match m with
  | (evs, Ret a) => (evs, Ret a)
  | (evs, Raise e) =>
      if catches e then let '(evs', r) := h e in (evs ++ evs', r)
      else (evs, Raise e)
  end.
(** [except Exception] *)
Definition any_Exception (e : exn) : bool := true.
End WM.

Declare Scope W_scope.
Delimit Scope W_scope with W.
Notation "x <- m ;; k" := (WM.bind m (fun x => k))
  (at level 100, m at next level, right associativity) : W_scope.
Notation "m ;; k" := (WM.bind m (fun _ => k))
  (at level 100, right associativity) : W_scope.

(** ** The outside world *)

Inductive http_result : Type :=
| Response (status_code : Z) (text : string)
| RequestError (e : exn).
    (** anything raised inside the [try] of one attempt *)

Inductive file_result : Type :=
| FileText (content : string)
| FileError (descr : string).
    (** [open] or [read] raised: an [OSError] or a [UnicodeDecodeError] *)

(** One run of the interactive browser fallback. *)
Inductive playwright_session : Type :=
| SessionBroken (e : exn)
    (** launching the browser, preparing the page, [input] or
        [browser.close] raised *)
| SessionRun (goto_error : option exn) (content : exn + string).
    (** [page.goto] succeeded or raised, then [page.content()] returned or
        raised *)

(** The answers typed at the prompts of [interactive_mode]: where the
    sitemap is, the format, and the file to write if any. *)
Record answers : Type := {
  answer_source : string;
  answer_fmt : string;
  answer_output : option string;
}.

Record World : Type := {
  PLAYWRIGHT_AVAILABLE : bool;
  (** [requests.get(source, ...)] at the given attempt (0, 1, 2); the random
      user agent and cookies of an attempt do not reach the program's
      control flow and are part of this answer *)
  requests_get : string -> nat -> http_result;
  playwright : string -> playwright_session;
  (** [open(source, "r", encoding="utf-8").read()] *)
  open_read : string -> file_result;
  (** [ET.fromstring]; [None] is [ET.ParseError] *)
  fromstring : string -> option Element;
  (** [requests.get("https://api.ipify.org", timeout=10).text] *)
  public_ip : exn + string;
  (** [output_urls(urls, fmt, output)]: serialisation is outside the core *)
  output_urls : list string -> string -> option string -> W unit;
  (** what [questionary] returns in [interactive_mode] *)
  prompts : answers;
}.

Definition MAX_SITEMAP_DEPTH : Z := 20.

(** ** The document functions *)

Section Documents.
Variable w : World.
Local Open Scope W_scope.

(** The two paths the program gives to [findall]. *)
Inductive path : Type :=
| Descendants (prefix : option string) (name : string).
    (** [".//name"] and [".//prefix:name"] *)

(** [root.findall(path, namespaces)]: a prefixed name is looked up in the
    [namespaces] dict and becomes ["{uri}name"]; an unknown prefix is a
    [SyntaxError]. *)
Definition findall (root : Element) (p : path)
    (namespaces : gmap string string) : W (list Element) :=
  match p with
  | Descendants None name => WM.ret (findall_descendants name root)
  | Descendants (Some pre) name =>
      match namespaces !! pre with
      | Some uri =>
          WM.ret (findall_descendants ("{" +:+ uri +:+ "}" +:+ name) root)
      | None => WM.raise (OtherException "SyntaxError")
      end
  end.

(** [if elem.text] *)
Definition truthy (t : option string) : bool :=
  match t with
  | Some (String _ _) => true
  | _ => false
  end.

(** [elem.text.strip()], evaluated only where [elem.text] is a string *)
Definition text_strip (elem : Element) : string :=
  match text elem with
  | Some t => Str.strip t
  | None => ""
  end.

(** [[elem.text.strip() for elem in elems if elem.text]] *)
Definition stripped_texts (elems : list Element) : list string :=
  map text_strip (List.filter (fun elem => truthy (text elem)) elems).

(** [ET.fromstring(xml_content)] *)
Definition ET_fromstring (xml_content : string) : W Element :=
  match fromstring w xml_content with
  | Some root => WM.ret root
  | None => WM.raise ParseError
  end.

Definition is_sitemap_index (xml_content : string) : W bool :=
  WM.try_except
    (root <- ET_fromstring xml_content ;;
     WM.ret (Str.endswith "sitemapindex" (tag root)))
    is_ParseError
    (fun _ => WM.ret false).

Definition extract_sitemaps_from_index (xml_content : string)
  : W (list string) :=
  root <- WM.try_except (ET_fromstring xml_content) is_ParseError
            (fun e => WM.echo true MsgErrorParsingXML ;; WM.raise (Exit 1)) ;;
  let '(ns, loc_tag) :=
    if Str.startswith "{" (tag root) then
      let uri := Str.strip_char "{" (Str.before_first "}" (tag root)) in
      ({[ "ns" := uri ]}, Descendants (Some "ns") "loc")
    else (∅, Descendants None "loc") in
  elems <- findall root loc_tag ns ;;
  let sitemaps := stripped_texts elems in
  WM.ret sitemaps.

Definition extract_urls_from_sitemap (xml_content : string)
  : W (list string) :=
  root <- WM.try_except (ET_fromstring xml_content) is_ParseError
            (fun e => WM.echo true MsgErrorParsingXML ;; WM.raise (Exit 1)) ;;
  let '(ns, loc_tag) :=
    if Str.startswith "{" (tag root) then
      let uri := Str.strip_char "{" (Str.before_first "}" (tag root)) in
      ({[ "ns" := uri ]}, Descendants (Some "ns") "loc")
    else (∅, Descendants None "loc") in
  elems <- findall root loc_tag ns ;;
  let urls := stripped_texts elems in
  WM.ret urls.

(** ** The fetcher *)

(** The body of [for attempt in range(3)], over the attempts still to make.
    [inl text] is the [return resp.text] inside the loop; [inr last_exc] is
    the loop running to its end. *)
Fixpoint fetch_attempts (source : string) (todo : list nat)
    (last_exc : option exn) : W (string + option exn) :=
  match todo with
  | [] => WM.ret (inr last_exc)
  | attempt :: rest =>
      WM.tell [HttpGet source attempt] ;;
      match requests_get w source attempt with
      | Response status_code text =>
          if status_code =? 200 then WM.ret (inl text)
          else
            WM.echo true (MsgHttpStatus status_code source attempt) ;;
            WM.echo true MsgDebugHeaders ;;
            WM.tell [Sleep attempt] ;;
            fetch_attempts source rest last_exc
      | RequestError e =>
          WM.echo true (MsgFetchError source attempt e) ;;
          WM.tell [Sleep attempt] ;;
          fetch_attempts source rest (Some e)
      end
  end.

(** The [if PLAYWRIGHT_AVAILABLE:] branch: every path returns the page or
    raises a [RequestException]. *)
Definition playwright_fallback (source : string) : W string :=
  WM.echo true (MsgPlaywrightFallback source) ;;
  WM.echo false MsgPlaywrightHowTo ;;
  WM.try_except
    match playwright w source with
    | SessionBroken e => WM.raise e
    | SessionRun goto_error content =>
        match goto_error with
        | Some e => WM.echo true (MsgNavigationFailed e) ;;
                    WM.echo true MsgBrowserStaysOpen
        | None => WM.ret tt
        end ;;
        WM.tell [Prompt] ;;
        match content with
        | inr page => WM.ret page
        | inl e =>
            WM.echo true (MsgCaptureFailed e) ;;
            WM.echo true MsgCaptureHelp ;;
            WM.raise (RequestException (PlaywrightFailed source e))
        end
    end
    WM.any_Exception
    (fun e =>
       WM.echo true (MsgPlaywrightFailed source e) ;;
       WM.raise (RequestException (PlaywrightFailed source e))).

Definition read_sitemap (source : string) : W string :=
  if Str.startswith "http://" source || Str.startswith "https://" source then
    r <- fetch_attempts source (seq 0 3) None ;;
    match r with
    | inl text => WM.ret text
    | inr last_exc =>
        if PLAYWRIGHT_AVAILABLE w then playwright_fallback source
        else
          WM.echo true MsgPlaywrightMissing ;;
          WM.raise (RequestException (FailedAfter3 source last_exc))
    end
  else
    match open_read w source with
    | FileText content => WM.ret content
    | FileError descr => WM.raise (OtherException descr)
    end.

End Documents.

(** ** Computations that also use the shared [visited] set *)

Definition M (A : Type) : Type := gset string -> W A * gset string.

Module MM.
Definition ret {A} (a : A) : M A := fun visited => (WM.ret a, visited).
Definition raise {A} (e : exn) : M A := fun visited => (WM.raise e, visited).
Definition lift {A} (m : W A) : M A := fun visited => (m, visited).
Definition echo (err : bool) (m : message) : M unit := lift (WM.echo err m).
Definition tell (evs : list event) : M unit := lift (WM.tell evs).
Definition bind {A B} (m : M A) (k : A -> M B) : M B := fun visited =>
  match m visited with
  | ((evs, Ret a), visited') =>
      let '((evs', r), visited'') := k a visited' in
      ((evs ++ evs', r), visited'')
  | ((evs, Raise e), visited') => ((evs, Raise e), visited')
  end.
(** runs [m] and hands its outcome to the handlers of a [try] statement *)
Definition attempt {A} (m : M A) : M (outcome A) := fun visited =>
  let '((evs, r), visited') := m visited in ((evs, Ret r), visited').
(** [source in visited] *)
Definition contains (source : string) : M bool := fun visited =>
  (WM.ret (bool_decide (source ∈ visited)), visited).
(** [visited.add(source)] *)
Definition add (source : string) : M unit := fun visited =>
  (WM.ret tt, {[ source ]} ∪ visited).
End MM.

Declare Scope M_scope.
Delimit Scope M_scope with M.
Notation "x <- m ;; k" := (MM.bind m (fun x => k))
  (at level 100, m at next level, right associativity) : M_scope.
Notation "m ;; k" := (MM.bind m (fun _ => k))
  (at level 100, right associativity) : M_scope.

(** ** The recursive resolver *)

Section Resolver.
Variable w : World.
Local Open Scope M_scope.

(** The [for child in child_sitemaps] loop, [all_urls] being the list built
    so far and [rec child] the call [extract_all_urls(child, depth + 1,
    visited)]: whatever a child raises is reported and the loop goes on. *)
Fixpoint for_children (rec : string -> M (list string))
    (child_sitemaps : list string) (all_urls : list string)
  : M (list string) :=
  match child_sitemaps with
  | [] => MM.ret all_urls
  | child :: rest =>
      MM.echo false (MsgChild child) ;;
      r <- MM.attempt (rec child) ;;
      match r with
      | Ret urls => for_children rec rest (all_urls ++ urls)
      | Raise e =>
          MM.echo true (MsgCouldNotParse child e) ;;
          for_children rec rest all_urls
      end
  end.

(** The body of [extract_all_urls], its recursive calls being [rec]. *)
Definition extract_all_urls_body (rec : string -> M (list string))
    (source : string) (depth : Z) : M (list string) :=
  seen <- MM.contains source ;;
  if (seen : bool) then MM.ret []
  else
    MM.add source ;;
    MM.tell [Fetch source] ;;
    r <- MM.attempt (MM.lift (read_sitemap w source)) ;;
    match r with
    | Raise e =>
        if is_RequestException e then
          MM.echo true (MsgCouldNotFetch source e) ;; MM.ret []
        else MM.raise e
    | Ret xml_content =>
        MM.tell [Parse source] ;;
        is_index <- MM.lift (is_sitemap_index w xml_content) ;;
        if (is_index : bool) then
          if MAX_SITEMAP_DEPTH <=? depth then
            MM.echo true (MsgMaxDepth source) ;; MM.ret []
          else
            MM.echo false (MsgIndexDetected source) ;;
            MM.tell [Parse source] ;;
            child_sitemaps <-
              MM.lift (extract_sitemaps_from_index w xml_content) ;;
            for_children rec child_sitemaps []
        else
          MM.tell [Parse source] ;;
          r <- MM.attempt (MM.lift (extract_urls_from_sitemap w xml_content)) ;;
          match r with
          | Ret urls => MM.ret urls
          | Raise e => MM.echo true (MsgCouldNotParse source e) ;; MM.ret []
          end
    end.

(** The recursion of [extract_all_urls] goes from [depth] to [depth + 1] and
    stops at [MAX_SITEMAP_DEPTH]; [fuel] counts the levels left. *)
Fixpoint resolve (fuel : nat) (source : string) (depth : Z)
  : M (list string) :=
  match fuel with
  | O => MM.ret []
  | S fuel' =>
      extract_all_urls_body (fun child => resolve fuel' child (depth + 1))
                            source depth
  end.

(** [extract_all_urls(source, depth, visited)], [visited] being a set *)
Definition extract_all_urls (source : string) (depth : Z) : M (list string) :=
  resolve (S (Z.to_nat (MAX_SITEMAP_DEPTH - depth))) source depth.

(** [extract_all_urls(source)]: depth 0 and a fresh [visited] set *)
Definition extract_all_urls_call (source : string) : W (list string) :=
  fst (extract_all_urls source 0 ∅).

End Resolver.

(** ** The command *)

Section Command.
Variable w : World.
Local Open Scope W_scope.

Definition log_public_ip : W unit :=
  match public_ip w with
  | inr ip => WM.echo false (MsgPublicIP ip)
  | inl e => WM.echo true (MsgNoPublicIP e)
  end.

(** The [try] block shared by [main] and [interactive_mode]. *)
Definition extract_and_output (source : string) (fmt : string)
    (output : option string) (done : W unit) : W unit :=
  WM.try_except
    (urls <- extract_all_urls_call w source ;;
     match urls with
     | [] => WM.echo true MsgNoURLs ;; WM.raise (Exit 1)
     | _ :: _ =>
         WM.echo false (MsgTotal (length urls)) ;;
         output_urls w urls fmt output ;;
         done
     end)
    WM.any_Exception
    (fun e => WM.echo true (MsgError e) ;; WM.raise (Exit 1)).

Definition interactive_mode : W unit :=
  let a := prompts w in
  WM.echo false
    (MsgInteractiveTitle
       match public_ip w with inr ip => Some ip | inl _ => None end) ;;
  WM.tell [Prompt] ;;
  WM.echo false MsgExtracting ;;
  extract_and_output (answer_source a) (answer_fmt a) (answer_output a)
    (WM.echo false MsgDone).

Definition main (source : option string) (output : option string)
    (format : string) (interactive : bool) : W unit :=
  log_public_ip ;;
  if interactive then interactive_mode ;; WM.raise (Exit 0)
  else
    match source with
    | None | Some EmptyString =>
        WM.echo true MsgMissingSource ;; WM.raise (Exit 1)
    | Some source =>
        extract_and_output source format output (WM.ret tt)
    end.

(** The status the process ends with: 0 when [main] returns, the code of a
    [typer.Exit], 1 for any other exception. *)
Definition exit_status (r : W unit) : Z :=
  match snd r with
  | Ret _ => 0
  | Raise (Exit code) => code
  | Raise _ => 1
  end.

End Command.

(** * Vocabulary of the properties *)

Definition is_Fetch (s : string) (e : event) : bool :=
  match e with Fetch s' => bool_decide (s' = s) | _ => false end.
Definition is_Parse (s : string) (e : event) : bool :=
  match e with Parse s' => bool_decide (s' = s) | _ => false end.

(** the number of calls [read_sitemap(s)] in a run *)
Definition fetches (s : string) (evs : list event) : nat :=
  length (List.filter (is_Fetch s) evs).
(** the number of times the document of [s] is handed to the classifier or
    to an extractor in a run *)
Definition parses (s : string) (evs : list event) : nat :=
  length (List.filter (is_Parse s) evs).

(** events of the fetcher and of the document functions: neither [Fetch]
    nor [Parse] *)
Definition quiet (evs : list event) : Prop :=
  Forall (fun e => match e with Fetch _ | Parse _ => False | _ => True end) evs.

(** What a piece of a resolution that starts with the set [v] and ends with
    [v'] keeps true of its events [evs]. *)
Definition visits_once (v : gset string) (evs : list event)
    (v' : gset string) : Prop :=
  v ⊆ v' /\
  forall s,
    (fetches s evs <= 1)%nat /\
    (parses s evs <= 2 * fetches s evs)%nat /\
    (s ∈ v -> fetches s evs = 0%nat) /\
    (fetches s evs = 1%nat -> s ∈ v').

(** The events of one visit of [source] without those of its children:
    one [Fetch], at most two [Parse], nothing about another source. *)
Definition visit_block (source : string) (evs : list event) : Prop :=
  fetches source evs = 1%nat /\ (parses source evs <= 2)%nat /\
  forall s, s <> source -> fetches s evs = 0%nat /\ parses s evs = 0%nat.

(** the marks of the source [s] in a run, in the order of the run *)
Definition marks (s : string) (evs : list event) : list event :=
  List.filter (fun e => is_Fetch s e || is_Parse s e) evs.

(** The marks one visit of [s] leaves when it goes all the way: the call of
    [read_sitemap], the document handed to the classifier, the document
    handed to an extractor.  A visit that stops early leaves the first
    ones. *)
Definition one_visit (s : string) : list event :=
  [Fetch s; Parse s; Parse s].


(** A tree of sitemap documents, as the specification pictures it: a leaf
    holds URLs, an index refers to its children in document order. *)
#[local] Unset Elimination Schemes.
Inductive sitemap_tree : Type :=
| LeafDoc (source : string) (urls : list string)
| IndexDoc (source : string) (subtrees : list sitemap_tree).
#[local] Set Elimination Schemes.

Definition root_source (t : sitemap_tree) : string :=
  match t with LeafDoc s _ | IndexDoc s _ => s end.

(** the URLs of the leaves, depth first, in document order *)
Fixpoint leaf_urls (t : sitemap_tree) : list string :=
  match t with
  | LeafDoc _ urls => urls
  | IndexDoc _ ts => flat_map leaf_urls ts
  end.

(** the sources of all documents of the tree *)
Fixpoint sources (t : sitemap_tree) : list string :=
  match t with
  | LeafDoc s _ => [s]
  | IndexDoc s ts => s :: flat_map sources ts
  end.

(** how many index documents are nested on the longest branch *)
Fixpoint index_height (t : sitemap_tree) : nat :=
  match t with
  | LeafDoc _ _ => 0
  | IndexDoc _ ts => S (list_max (map index_height ts))
  end.

(** The world [w] holds the documents of the tree: each source can be
    fetched, its document is classified as the tree says, and the extractor
    finds in it the children, or the URLs, the tree gives. *)
Inductive serves (w : World) : sitemap_tree -> Prop :=
| serves_leaf source urls evs xml_content :
    read_sitemap w source = (evs, Ret xml_content) ->
    snd (is_sitemap_index w xml_content) = Ret false ->
    snd (extract_urls_from_sitemap w xml_content) = Ret urls ->
    serves w (LeafDoc source urls)
| serves_index source ts evs xml_content :
    read_sitemap w source = (evs, Ret xml_content) ->
    snd (is_sitemap_index w xml_content) = Ret true ->
    snd (extract_sitemaps_from_index w xml_content)
      = Ret (map root_source ts) ->
    Forall (serves w) ts ->
    serves w (IndexDoc source ts).

(** [serves], decided by running the fetcher, the classifier and the
    extractor on every document of the tree *)
Fixpoint serves_check (w : World) (t : sitemap_tree) : bool :=
  match t with
  | LeafDoc source urls =>
      match read_sitemap w source with
      | (_, Ret xml_content) =>
          match snd (is_sitemap_index w xml_content),
                snd (extract_urls_from_sitemap w xml_content) with
          | Ret false, Ret found => bool_decide (found = urls)
          | _, _ => false
          end
      | (_, Raise _) => false
      end
  | IndexDoc source ts =>
      match read_sitemap w source with
      | (_, Ret xml_content) =>
          match snd (is_sitemap_index w xml_content),
                snd (extract_sitemaps_from_index w xml_content) with
          | Ret true, Ret found =>
              bool_decide (found = map root_source ts)
              && forallb (serves_check w) ts
          | _, _ => false
          end
      | (_, Raise _) => false
      end
  end.

(** the value a computation returns and the set it leaves *)
Definition result {A} (r : W A * gset string) : outcome A * gset string :=
  (snd (fst r), snd r).

(** ** Documents with and without a default namespace *)

(** every character of [s] satisfies [q] *)
Fixpoint all_chars (q : ascii -> bool) (s : string) : bool :=
  match s with
  | EmptyString => true
  | String c s' => q c && all_chars q s'
  end.

(** neither ["{"] nor ["}"] occurs: so are XML names and the namespace URIs
    of sitemaps *)
Definition brace_free (s : string) : bool :=
  all_chars (fun c => negb (Ascii.eqb c "{") && negb (Ascii.eqb c "}")) s.

(** the tag [ET.fromstring] gives to an element called [name] when the
    document declares the default namespace [ns], and when it declares none *)
Definition qualify (ns : option string) (name : string) : string :=
  match ns with
  | None => name
  | Some uri => "{" +:+ uri +:+ "}" +:+ name
  end.

(** the tree of a document all of whose elements are in the namespace [ns] *)
Fixpoint in_namespace (ns : option string) (e : Element) : Element :=
  match e with
  | Elem t x cs => Elem (qualify ns t) x (map (in_namespace ns) cs)
  end.

(** the [loc] elements of a document: its descendants called [loc], in
    document order *)
Definition locs (doc : Element) : list Element :=
  List.filter (fun e => String.eqb (tag e) "loc")
              (flat_map iter (children doc)).

(** a text that is absent, empty or made of white space only *)
Definition blank (t : option string) : bool :=
  match t with
  | None => true
  | Some s => match Str.lstrip_by Str.isspace s with
              | EmptyString => true
              | String _ _ => false
              end
  end.

(** an ordinary namespace: none, or a URI that is not empty, holds no brace
    and is not [*], which a path reads as "any namespace" *)
Definition ordinary_namespace (ns : option string) : Prop :=
  match ns with
  | None => True
  | Some uri => uri <> "" /\ uri <> "*" /\ brace_free uri = true
  end.

(** the [loc] elements of the namespace [ns] below [root], in document
    order; a [loc] of another namespace is not one of them *)
Definition locs_in (ns : option string) (root : Element) : list Element :=
  List.filter (fun e => String.eqb (tag e) (qualify ns "loc"))
              (flat_map iter (children root)).

(** the trimmed texts of the elements whose text is not blank *)
Definition trimmed_texts (elems : list Element) : list string :=
  omap (fun e => if blank (text e) then None
                 else Str.strip <$> text e) elems.

(** none of the elements has a text made of white space only *)
Definition no_whitespace_only (elems : list Element) : Prop :=
  Forall (fun e => match text e with
                   | Some s => Str.whitespace_only s = false
                   | None => True
                   end) elems.

(** the name of a tag without its namespace *)
Definition local_name (t : string) : string :=
  if Str.startswith "{" t
  then Str.drop (S (String.length (Str.before_first "}" t))) t
  else t.

(** ** The children that returned *)

(** the URLs of the children that returned, in the order of the children,
    each call starting with the visited set the call before left *)
Fixpoint returned_urls (rec : string -> M (list string))
    (child_sitemaps : list string) (v : gset string) : list string :=
  match child_sitemaps with
  | [] => []
  | child :: rest =>
      match rec child v with
      | ((_, Ret urls), v1) => urls ++ returned_urls rec rest v1
      | ((_, Raise _), v1) => returned_urls rec rest v1
      end
  end.

(** ** Failed retrievals *)

(** an attempt that does not end with status 200 *)
Definition attempt_failed (r : http_result) : bool :=
  match r with
  | Response status_code _ => negb (status_code =? 200)
  | RequestError _ => true
  end.

(** the exception of the last attempt that raised one, [last_exc] when no
    attempt raised *)
Fixpoint last_raised (answers : list http_result) (last_exc : option exn)
  : option exn :=
  match answers with
  | [] => last_exc
  | Response _ _ :: rest => last_raised rest last_exc
  | RequestError e :: rest => last_raised rest (Some e)
  end.

(** a remote locator, as [read_sitemap] tells it from a path *)
Definition is_remote (source : string) : bool :=
  Str.startswith "http://" source || Str.startswith "https://" source.

(** ** Counting requests *)

Definition is_HttpGet (e : event) : bool :=
  match e with HttpGet _ _ => true | _ => false end.
Definition is_Sleep (e : event) : bool :=
  match e with Sleep _ => true | _ => false end.

(** the number of calls of [requests.get] in a run *)
Definition http_gets (evs : list event) : nat :=
  length (List.filter is_HttpGet evs).
(** the number of calls of [time.sleep] in a run *)
Definition sleeps (evs : list event) : nat :=
  length (List.filter is_Sleep evs).

(** ** Trimmed strings *)

(** neither the first nor the last character is white space *)
Definition trimmed (s : string) : Prop :=
  match s with
  | EmptyString => True
  | String c _ => Str.isspace c = false
  end
  /\ match String.rev s with
     | EmptyString => True
     | String c _ => Str.isspace c = false
     end.

(** ** The world with another answer of the IP service *)


(** * The output function *)

Module Output.

(** [c.lower()] on a code point below 256: the letters A..Z and the
    capital letters of Latin-1 (all of 192..222 but the multiplication
    sign) move up by 32 *)
Definition lower_char (c : ascii) : ascii :=
  let n := N_of_ascii c in
  if ((65 <=? n) && (n <=? 90)
      || (192 <=? n) && (n <=? 222) && negb (n =? 215))%N
  then ascii_of_N (n + 32)
  else c.

(** [s.lower()] *)
Fixpoint lower (s : string) : string :=
  match s with
  | EmptyString => EmptyString
  | String c s' => String (lower_char c) (lower s')
  end.

(** [sep.join(items)] *)
Fixpoint join (sep : string) (items : list string) : string :=
  match items with
  | [] => ""
  | [x] => x
  | x :: rest => x +:+ sep +:+ join sep rest
  end.

(** [s.split(c)] for a one-character separator: the pieces between the
    occurrences of [c], always at least one *)
Fixpoint split (c : ascii) (s : string) : list string :=
  match s with
  | EmptyString => [""]
  | String a s' =>
      if Ascii.eqb a c then "" :: split c s'
      else match split c s' with
           | [] => [String a ""]
           | piece :: pieces => String a piece :: pieces
           end
  end.

(** What [output_urls] does that can be observed. *)
Inductive effect : Type :=
| Print (content : string)
    (** [print(content, end="")] *)
| PrintXlsxNotice
    (** the notice, on the error stream, that XLSX cannot be displayed *)
| EchoUnsupported (fmt : string)
    (** ["Unsupported format: {fmt}"] on the error stream *)
| WriteText (path content : string)
    (** [output.write_text(content, encoding="utf-8")] *)
| ToCsv (path : string) (urls : list string)
    (** [df.to_csv(output, index=False)] *)
| ToExcel (path : string) (urls : list string).
    (** [df.to_excel(output, index=False)] *)

(** The serialisers of the libraries and the file system. *)
Record Library : Type := {
  (** [json.dumps(urls, indent=2, ensure_ascii=False)] *)
  json_dumps : list string -> string;
  (** [yaml.dump(urls, allow_unicode=True)] *)
  yaml_dump : list string -> string;
  (** [pd.DataFrame(urls, columns=["url"]).to_csv(index=False)] *)
  csv_text : list string -> string;
  (** what writing the file raises, if anything *)
  write_text : string -> string -> option exn;
  to_csv : string -> list string -> option exn;
  to_excel : string -> list string -> option exn;
}.

Definition finish (failure : option exn) : outcome unit :=
  match failure with
  | None => Ret tt
  | Some e => Raise e
  end.

(** [content] goes to the file when there is one, to the standard output
    otherwise *)
Definition emit (lib : Library) (content : string) (output : option string)
  : list effect * outcome unit :=
  match output with
  | Some path => ([WriteText path content], finish (write_text lib path content))
  | None => ([Print content], Ret tt)
  end.

Definition output_urls (lib : Library) (urls : list string) (fmt : string)
    (output : option string) : list effect * outcome unit :=
  let fmt := lower fmt in
  if String.eqb fmt "txt" then emit lib (join (String "010" "") urls) output
  else if String.eqb fmt "json" then emit lib (json_dumps lib urls) output
  else if String.eqb fmt "csv" then
    match output with
    | Some path => ([ToCsv path urls], finish (to_csv lib path urls))
    | None => ([Print (csv_text lib urls)], Ret tt)
    end
  else if String.eqb fmt "xlsx" then
    match output with
    | Some path => ([ToExcel path urls], finish (to_excel lib path urls))
    | None => ([PrintXlsxNotice], Ret tt)
    end
  else if String.eqb fmt "yaml" then emit lib (yaml_dump lib urls) output
  else ([EchoUnsupported fmt], Raise (Exit 1)).

(** the formats [output_urls] knows *)
Definition formats : list string := ["txt"; "json"; "csv"; "xlsx"; "yaml"].

Definition writes_file (e : effect) : bool :=
  match e with
  | WriteText _ _ | ToCsv _ _ | ToExcel _ _ => true
  | _ => false
  end.

Definition prints_data (e : effect) : bool :=
  match e with Print _ => true | _ => false end.

(** the file an effect writes to *)
Definition target (e : effect) : option string :=
  match e with
  | WriteText path _ | ToCsv path _ | ToExcel path _ => Some path
  | _ => None
  end.

(** the line feed *)
Definition newline : ascii := "010".

(** a string without line feed *)
Definition one_line (s : string) : bool :=
  all_chars (fun a => negb (Ascii.eqb a newline)) s.

End Output.

(** a world whose [output_urls] ends as the function of the program does
    with the library [lib] *)
Definition output_agrees (w : World) (lib : Output.Library) : Prop :=
  forall urls fmt output,
    snd (output_urls w urls fmt output)
    = snd (Output.output_urls lib urls fmt output).

(** the world [w] with the output function of the program over [lib], its
    effects left out *)
Definition with_output (lib : Output.Library) (w : World) : World :=
  {| PLAYWRIGHT_AVAILABLE := PLAYWRIGHT_AVAILABLE w;
     requests_get := requests_get w;
     playwright := playwright w;
     open_read := open_read w;
     fromstring := fromstring w;
     public_ip := public_ip w;
     output_urls := fun urls fmt output =>
       ([], snd (Output.output_urls lib urls fmt output));
     prompts := prompts w |}.

(** ** The visited set against the trace *)

(** the set [v'] left by a piece of a resolution holds the set [v] it
    started with and the sources fetched in its events [evs], nothing else *)
Definition records_fetches (v : gset string) (evs : list event)
    (v' : gset string) : Prop :=
  forall s, s ∈ v' <-> (s ∈ v \/ (0 < fetches s evs)%nat).

(** * Scenarios

    Concrete worlds on which the program is run below.  A world is given by
    its files, by the element tree [ET.fromstring] builds from each
    document text (texts absent from the table are not well-formed XML), by
    the HTTP answers and by whether Playwright is installed. *)

Module Scenario.

Definition make_world (files : gmap string string)
    (parsed : gmap string Element)
    (http : string -> nat -> http_result) (has_playwright : bool) : World :=
  {| PLAYWRIGHT_AVAILABLE := has_playwright;
     requests_get := http;
     playwright := fun _ => SessionBroken (OtherException "no display");
     open_read := fun source =>
       match files !! source with
       | Some content => FileText content
       | None => FileError "[Errno 2] No such file or directory"
       end;
     fromstring := fun xml_content => parsed !! xml_content;
     public_ip := inr "203.0.113.7";
     output_urls := fun _ _ _ => WM.ret tt;
     prompts := {| answer_source := "index.xml"; answer_fmt := "txt";
                   answer_output := None |} |}.

(** the server answers every request with 503 *)
Definition unavailable (source : string) (attempt : nat) : http_result :=
  Response 503 "".

Definition index_xml : string :=
  "<sitemapindex><sitemap><loc>a.xml</loc></sitemap><sitemap><loc>b.xml</loc></sitemap></sitemapindex>".
Definition a_xml : string :=
  "<urlset><url><loc> https://a.test/x </loc></url></urlset>".
Definition b_xml : string :=
  "<urlset><url><loc>https://a.test/y</loc></url></urlset>".
Definition self_xml : string :=
  "<sitemapindex><sitemap><loc>self.xml</loc></sitemap><sitemap><loc>a.xml</loc></sitemap></sitemapindex>".
Definition mixed_xml : string :=
  "<sitemapindex><sitemap><loc>bad.xml</loc></sitemap><sitemap><loc>b.xml</loc></sitemap></sitemapindex>".
(** not well-formed: the elements are never closed *)
Definition bad_xml : string := "<urlset><url><loc>https://a.test/z".
Definition blank_xml : string :=
  "<urlset><url><loc></loc></url><url><loc> </loc></url></urlset>".
Definition ns_xml : string :=
  "<urlset xmlns='http://www.sitemaps.org/schemas/sitemap/0.9'><url><loc> https://a.test/x </loc></url><url><loc>https://a.test/y</loc></url></urlset>".

Definition sitemap_ns : string := "http://www.sitemaps.org/schemas/sitemap/0.9".

(** [<sitemap><loc>child</loc></sitemap>] *)
Definition sitemap_entry (child : string) : Element :=
  Elem "sitemap" None [Elem "loc" (Some child) []].
(** [<url><loc>text</loc></url>], an empty [loc] having no text *)
Definition url_entry (loc_text : option string) : Element :=
  Elem "url" None [Elem "loc" loc_text []].

(** the plain (namespace-free) tree of [ns_xml] *)
Definition two_urls : Element :=
  Elem "urlset" None
    [url_entry (Some " https://a.test/x "); url_entry (Some "https://a.test/y")].

Definition files : gmap string string :=
  list_to_map
    [("index.xml", index_xml); ("a.xml", a_xml); ("b.xml", b_xml);
     ("self.xml", self_xml); ("mixed.xml", mixed_xml); ("bad.xml", bad_xml);
     ("blank.xml", blank_xml); ("ns.xml", ns_xml)].

Definition parsed : gmap string Element :=
  list_to_map
    [(index_xml,
      Elem "sitemapindex" None [sitemap_entry "a.xml"; sitemap_entry "b.xml"]);
     (a_xml, Elem "urlset" None [url_entry (Some " https://a.test/x ")]);
     (b_xml, Elem "urlset" None [url_entry (Some "https://a.test/y")]);
     (self_xml,
      Elem "sitemapindex" None
        [sitemap_entry "self.xml"; sitemap_entry "a.xml"]);
     (mixed_xml,
      Elem "sitemapindex" None
        [sitemap_entry "bad.xml"; sitemap_entry "b.xml"]);
     (blank_xml,
      Elem "urlset" None [url_entry None; url_entry (Some " ")]);
     (ns_xml,
      Elem "{http://www.sitemaps.org/schemas/sitemap/0.9}urlset" None
        [Elem "{http://www.sitemaps.org/schemas/sitemap/0.9}url" None
           [Elem "{http://www.sitemaps.org/schemas/sitemap/0.9}loc"
              (Some " https://a.test/x ") []];
         Elem "{http://www.sitemaps.org/schemas/sitemap/0.9}url" None
           [Elem "{http://www.sitemaps.org/schemas/sitemap/0.9}loc"
              (Some "https://a.test/y") []]])].

(** local files, a server that is down, no Playwright *)
Definition world : World := make_world files parsed unavailable false.

Definition remote : string := "https://a.test/sitemap.xml".

(** the index with its two leaves, as a tree *)
Definition two_leaves : sitemap_tree :=
  IndexDoc "index.xml"
    [LeafDoc "a.xml" ["https://a.test/x"];
     LeafDoc "b.xml" ["https://a.test/y"]].

(** ** A chain of nested indexes *)

Definition chain_source (k : nat) : string :=
  "deep" +:+ String.concat "" (replicate k "/sub") +:+ "/sitemap.xml".

Definition chain_index_xml (child : string) : string :=
  "<sitemapindex><sitemap><loc>" +:+ child
  +:+ "</loc></sitemap></sitemapindex>".

Definition chain_leaf_xml : string :=
  "<urlset><url><loc>https://a.test/deep</loc></url></urlset>".

(** [n] indexes, each naming the next, above one leaf; the first document
    is [chain_source k] *)
Fixpoint chain (k n : nat) : sitemap_tree :=
  match n with
  | O => LeafDoc (chain_source k) ["https://a.test/deep"]
  | S n' => IndexDoc (chain_source k) [chain (S k) n']
  end.

Definition chain_files (n : nat) : gmap string string :=
  list_to_map
    (map (fun k => (chain_source k, chain_index_xml (chain_source (S k))))
         (seq 0 n)
     ++ [(chain_source n, chain_leaf_xml)]).

Definition chain_parsed (n : nat) : gmap string Element :=
  list_to_map
    (map (fun k => (chain_index_xml (chain_source (S k)),
                    Elem "sitemapindex" None
                      [sitemap_entry (chain_source (S k))]))
         (seq 0 n)
     ++ [(chain_leaf_xml,
          Elem "urlset" None [url_entry (Some "https://a.test/deep")])]).

Definition chain_world (n : nat) : World :=
  make_world (chain_files n) (chain_parsed n) unavailable false.

(** ** A server that answers at the second attempt *)

Definition flaky (source : string) (attempt : nat) : http_result :=
  match attempt with
  | O => RequestError (RequestException (Transport "Read timed out"))
  | _ => Response 200 b_xml
  end.

Definition flaky_world : World := make_world files parsed flaky false.

(** ** A browser session that captures the page after a failed navigation *)

Definition browser_world : World :=
  {| PLAYWRIGHT_AVAILABLE := true;
     requests_get := unavailable;
     playwright := fun _ =>
       SessionRun (Some (OtherException "Timeout 30000ms exceeded"))
                  (inr a_xml);
     open_read := fun _ => FileError "[Errno 2] No such file or directory";
     fromstring := fun xml_content => parsed !! xml_content;
     public_ip := inr "203.0.113.7";
     output_urls := fun _ _ _ => WM.ret tt;
     prompts := {| answer_source := remote; answer_fmt := "json";
                   answer_output := None |} |}.

(** ** An index in the sitemap namespace *)




(** ** A diamond and a cycle *)

(** an index that names a leaf, itself, and the leaf again *)
Definition diamond_xml : string :=
  "<sitemapindex><sitemap><loc>a.xml</loc></sitemap><sitemap><loc>diamond.xml</loc></sitemap><sitemap><loc>a.xml</loc></sitemap></sitemapindex>".

Definition diamond_world : World :=
  make_world {[ "diamond.xml" := diamond_xml; "a.xml" := a_xml ]}
    {[ diamond_xml :=
         Elem "sitemapindex" None
           [sitemap_entry "a.xml"; sitemap_entry "diamond.xml";
            sitemap_entry "a.xml"];
       a_xml := Elem "urlset" None [url_entry (Some " https://a.test/x ")] ]}
    unavailable false.

(** ** A sitemap with images *)

Definition image_ns : string :=
  "http://www.google.com/schemas/sitemap-image/1.1".

Definition image_xml : string :=
  "<urlset xmlns='http://www.sitemaps.org/schemas/sitemap/0.9' xmlns:image='http://www.google.com/schemas/sitemap-image/1.1'><url><loc>https://a.test/x</loc><image:image><image:loc>https://a.test/x.png</image:loc></image:image></url></urlset>".

Definition image_root : Element :=
  Elem (qualify (Some sitemap_ns) "urlset") None
    [Elem (qualify (Some sitemap_ns) "url") None
       [Elem (qualify (Some sitemap_ns) "loc") (Some "https://a.test/x") [];
        Elem (qualify (Some image_ns) "image") None
          [Elem (qualify (Some image_ns) "loc")
             (Some "https://a.test/x.png") []]]].

Definition image_world : World :=
  make_world {[ "images.xml" := image_xml ]} {[ image_xml := image_root ]}
    unavailable false.

(** ** A root in the namespace [*] *)

Definition star_xml : string :=
  "<urlset xmlns='*' xmlns:o='urn:o'><loc>a</loc><o:loc>b</o:loc><loc xmlns=''>c</loc></urlset>".

Definition star_world : World :=
  make_world {[ "star.xml" := star_xml ]}
    {[ star_xml :=
         Elem "{*}urlset" None
           [Elem "{*}loc" (Some "a") []; Elem "{urn:o}loc" (Some "b") [];
            Elem "loc" (Some "c") []] ]}
    unavailable false.

(** ** A library for the output function *)

Definition library : Output.Library :=
  {| Output.json_dumps := fun urls =>
       "[" +:+ Output.join ", " urls +:+ "]";
     Output.yaml_dump := fun urls => Output.join (String "010" "") urls;
     Output.csv_text := fun urls =>
       Output.join (String "010" "") ("url" :: urls);
     Output.write_text := fun _ _ => None;
     Output.to_csv := fun _ _ => None;
     Output.to_excel := fun _ _ => None |}.

End Scenario.

(** * Properties *)

(** ** The resolver satisfies the recursion of the Python function *)

Section ResolverFacts.
Variable w : World.

(** At and beyond the depth limit the body makes no recursive call. *)
Lemma body_at_max_depth rec1 rec2 source depth visited :
  MAX_SITEMAP_DEPTH <= depth ->
  extract_all_urls_body w rec1 source depth visited
  = extract_all_urls_body w rec2 source depth visited.
Proof.
  intros Hd. apply Z.leb_le in Hd.
  unfold extract_all_urls_body, MM.bind, MM.contains, MM.attempt, MM.lift,
    MM.tell, MM.add, WM.ret; simpl.
  destruct (bool_decide (source ∈ visited)); [reflexivity|].
  destruct (read_sitemap w source) as [evs [xml|e]]; [|reflexivity].
  destruct (is_sitemap_index w xml) as [evs' [[|]|e]]; try reflexivity.
  rewrite Hd. reflexivity.
Qed.

(** [extract_all_urls] is the function whose body calls
    [extract_all_urls(child, depth + 1, visited)]: no call runs out of
    fuel. *)
Lemma extract_all_urls_unfold source depth visited :
  extract_all_urls w source depth visited
  = extract_all_urls_body w
      (fun child => extract_all_urls w child (depth + 1)) source depth visited.
Proof.
  unfold extract_all_urls.
  destruct (Z.le_gt_cases MAX_SITEMAP_DEPTH depth) as [Hd|Hd].
  - simpl. now apply body_at_max_depth.
  - unfold MAX_SITEMAP_DEPTH in *.
    replace (Z.to_nat (20 - depth)) with (S (Z.to_nat (20 - (depth + 1))))
      by lia.
    reflexivity.
Qed.

End ResolverFacts.

(** ** How often a source is fetched and parsed *)

Lemma fetches_app s l1 l2 :
  fetches s (l1 ++ l2) = (fetches s l1 + fetches s l2)%nat.
Proof. unfold fetches. now rewrite List.filter_app, length_app. Qed.

Lemma parses_app s l1 l2 :
  parses s (l1 ++ l2) = (parses s l1 + parses s l2)%nat.
Proof. unfold parses. now rewrite List.filter_app, length_app. Qed.

Lemma quiet_counts s evs :
  quiet evs -> fetches s evs = 0%nat /\ parses s evs = 0%nat.
Proof.
  unfold fetches, parses.
  induction 1 as [|e evs He _ [IH1 IH2]]; [easy|].
  destruct e; simpl; try contradiction; auto.
Qed.

Lemma quiet_app l1 l2 : quiet l1 -> quiet l2 -> quiet (l1 ++ l2).
Proof. apply Forall_app_2. Qed.

Lemma quiet_nil : quiet [].
Proof. constructor. Qed.

Lemma quiet_cons e l :
  match e with Fetch _ | Parse _ => False | _ => True end ->
  quiet l -> quiet (e :: l).
Proof. now constructor. Qed.

Create HintDb quiet.
#[local] Hint Resolve quiet_app quiet_nil : quiet.
#[local] Hint Extern 1 (quiet (_ :: _)) => apply quiet_cons; [exact I|] : quiet.

Section Quiet.
Variable w : World.

Lemma quiet_bind {A B} (m : W A) (k : A -> W B) :
  quiet (fst m) -> (forall a, quiet (fst (k a))) -> quiet (fst (WM.bind m k)).
Proof.
  destruct m as [evs [a|e]]; simpl; intros Hm Hk; [|exact Hm].
  specialize (Hk a). destruct (k a) as [evs' r]. simpl in *.
  now apply quiet_app.
Qed.

Lemma quiet_try_except {A} (m : W A) c h :
  quiet (fst m) -> (forall e, quiet (fst (h e))) ->
  quiet (fst (WM.try_except m c h)).
Proof.
  destruct m as [evs [a|e]]; simpl; intros Hm Hh; [exact Hm|].
  destruct (c e); [|exact Hm].
  specialize (Hh e). destruct (h e) as [evs' r]. simpl in *.
  now apply quiet_app.
Qed.

Lemma quiet_fetch_attempts source todo last_exc :
  quiet (fst (fetch_attempts w source todo last_exc)).
Proof.
  revert last_exc. induction todo as [|attempt rest IH]; intros last_exc.
  - apply quiet_nil.
  - cbn [fetch_attempts]. apply quiet_bind; [simpl; auto with quiet|].
    intros _. destruct (requests_get w source attempt) as [st tx|e].
    + destruct (st =? 200); [apply quiet_nil|].
      repeat (apply quiet_bind; [simpl; auto with quiet|intros _]).
      apply IH.
    + repeat (apply quiet_bind; [simpl; auto with quiet|intros _]).
      apply IH.
Qed.

Lemma quiet_playwright_fallback source :
  quiet (fst (playwright_fallback w source)).
Proof.
  unfold playwright_fallback.
  repeat (apply quiet_bind; [simpl; auto with quiet|intros _]).
  apply quiet_try_except.
  - destruct (playwright w source) as [e|[e|] [e'|page]];
      simpl; auto 10 with quiet.
  - intros e. simpl. auto with quiet.
Qed.

Lemma quiet_read_sitemap source : quiet (fst (read_sitemap w source)).
Proof.
  unfold read_sitemap.
  destruct (_ || _).
  - apply quiet_bind; [apply quiet_fetch_attempts|].
    intros [text|last_exc]; [apply quiet_nil|].
    destruct (PLAYWRIGHT_AVAILABLE w); [apply quiet_playwright_fallback|].
    simpl. auto with quiet.
  - destruct (open_read w source); apply quiet_nil.
Qed.

Lemma quiet_is_sitemap_index xml : quiet (fst (is_sitemap_index w xml)).
Proof.
  unfold is_sitemap_index, ET_fromstring.
  destruct (fromstring w xml); simpl; auto with quiet.
Qed.

Lemma quiet_extract_sitemaps_from_index xml :
  quiet (fst (extract_sitemaps_from_index w xml)).
Proof.
  unfold extract_sitemaps_from_index, ET_fromstring.
  destruct (fromstring w xml) as [root|]; simpl; auto with quiet.
  destruct (Str.startswith "{" (tag root)); simpl; auto with quiet.
Qed.

Lemma quiet_extract_urls_from_sitemap xml :
  quiet (fst (extract_urls_from_sitemap w xml)).
Proof.
  unfold extract_urls_from_sitemap, ET_fromstring.
  destruct (fromstring w xml) as [root|]; simpl; auto with quiet.
  destruct (Str.startswith "{" (tag root)); simpl; auto with quiet.
Qed.

End Quiet.
(** ** The visited set and the trace of a resolution *)

Lemma visits_once_quiet v evs : quiet evs -> visits_once v evs v.
Proof.
  intros Hq. split; [set_solver|].
  intros s. destruct (quiet_counts s evs Hq) as [-> ->]. repeat split; lia.
Qed.

Lemma visits_once_seq v evs1 v1 evs2 v2 :
  visits_once v evs1 v1 -> visits_once v1 evs2 v2 ->
  visits_once v (evs1 ++ evs2) v2.
Proof.
  intros [Hsub1 H1] [Hsub2 H2]. split; [set_solver|].
  intros s. rewrite fetches_app, parses_app.
  destruct (H1 s) as (Ha1 & Hb1 & Hc1 & Hd1).
  destruct (H2 s) as (Ha2 & Hb2 & Hc2 & Hd2).
  assert (fetches s evs1 = 1%nat -> fetches s evs2 = 0%nat) as Hx.
  { intros Hf. apply Hc2, Hd1, Hf. }
  repeat split.
  - lia.
  - lia.
  - intros Hin. rewrite (Hc1 Hin), (Hc2 (Hsub1 _ Hin)). reflexivity.
  - intros Hf.
    destruct (decide (fetches s evs1 = 1%nat)) as [Hf1|Hf1].
    + apply Hsub2, Hd1, Hf1.
    + apply Hd2. lia.
Qed.

Lemma visits_once_block v source evs :
  source ∉ v -> visit_block source evs ->
  visits_once v evs ({[ source ]} ∪ v).
Proof.
  intros Hnot (Hf & Hp & Hother). split; [set_solver|].
  intros s. destruct (decide (s = source)) as [->|Hne].
  - rewrite Hf. repeat split; try lia; [contradiction|set_solver].
  - destruct (Hother s Hne) as [-> ->]. repeat split; lia.
Qed.

Lemma fetches_Fetch s s' evs :
  fetches s (Fetch s' :: evs)
  = ((if bool_decide (s' = s) then 1 else 0) + fetches s evs)%nat.
Proof. unfold fetches. simpl. destruct (bool_decide _); reflexivity. Qed.

Lemma parses_Parse s s' evs :
  parses s (Parse s' :: evs)
  = ((if bool_decide (s' = s) then 1 else 0) + parses s evs)%nat.
Proof. unfold parses. simpl. destruct (bool_decide _); reflexivity. Qed.

Lemma fetches_Parse s s' evs : fetches s (Parse s' :: evs) = fetches s evs.
Proof. reflexivity. Qed.

Lemma parses_Fetch s s' evs : parses s (Fetch s' :: evs) = parses s evs.
Proof. reflexivity. Qed.

Lemma fetches_Echo s err m evs : fetches s (Echo err m :: evs) = fetches s evs.
Proof. reflexivity. Qed.

Lemma parses_Echo s err m evs : parses s (Echo err m :: evs) = parses s evs.
Proof. reflexivity. Qed.

Lemma fetches_nil s : fetches s [] = 0%nat.
Proof. reflexivity. Qed.

Lemma parses_nil s : parses s [] = 0%nat.
Proof. reflexivity. Qed.

(** Counts the [Fetch] and [Parse] events of an explicit list, the events
    of the fetcher and of the document functions being quiet. *)
Ltac count_events :=
  repeat first
    [ rewrite fetches_app | rewrite parses_app
    | rewrite fetches_Fetch | rewrite parses_Parse
    | rewrite fetches_Parse | rewrite parses_Fetch
    | rewrite fetches_Echo | rewrite parses_Echo
    | rewrite fetches_nil | rewrite parses_nil ].

Lemma fetches_quiet s evs : quiet evs -> fetches s evs = 0%nat.
Proof. intros H. apply (quiet_counts s evs H). Qed.

Lemma parses_quiet s evs : quiet evs -> parses s evs = 0%nat.
Proof. intros H. apply (quiet_counts s evs H). Qed.

(** Settles that the events of one visit keep [visits_once], [Hnot] being
    that the source was not visited before. *)
Ltac block_events Hnot :=
  apply visits_once_block; [exact Hnot|];
  (split; [|split; [|intros ? ?; split]]);
  count_events;
  rewrite ?fetches_quiet, ?parses_quiet by assumption;
  rewrite ?bool_decide_eq_true_2 by reflexivity;
  rewrite ?bool_decide_eq_false_2 by congruence;
  lia.

Section Visits.
Variable w : World.

Lemma for_children_visits_once rec :
  (forall child v, visits_once v (fst (fst (rec child v))) (snd (rec child v))) ->
  forall child_sitemaps all_urls v,
    visits_once v (fst (fst (for_children rec child_sitemaps all_urls v)))
                (snd (for_children rec child_sitemaps all_urls v)).
Proof.
  intros Hrec child_sitemaps.
  induction child_sitemaps as [|child rest IH]; intros all_urls v.
  - apply visits_once_quiet, quiet_nil.
  - cbn [for_children]. unfold MM.bind, MM.echo, MM.attempt, MM.lift. simpl.
    specialize (Hrec child v).
    destruct (rec child v) as [[evs [urls|e]] v1]; simpl in *.
    + specialize (IH (all_urls ++ urls) v1).
      destruct (for_children rec rest (all_urls ++ urls) v1) as [[evs2 r2] v2].
      simpl in *.
      apply (visits_once_seq v [Echo false (MsgChild child)] v (evs ++ evs2) v2);
        [apply visits_once_quiet; auto with quiet|].
      now apply visits_once_seq with v1.
    + specialize (IH all_urls v1).
      destruct (for_children rec rest all_urls v1) as [[evs2 r2] v2].
      simpl in *.
      apply (visits_once_seq v [Echo false (MsgChild child)] v
               (evs ++ Echo true (MsgCouldNotParse child e) :: evs2) v2);
        [apply visits_once_quiet; auto with quiet|].
      apply visits_once_seq with v1; [exact Hrec|].
      apply (visits_once_seq v1 [Echo true (MsgCouldNotParse child e)] v1
               evs2 v2); [apply visits_once_quiet; auto with quiet|exact IH].
Qed.

Lemma body_visits_once rec source depth :
  (forall child v, visits_once v (fst (fst (rec child v))) (snd (rec child v))) ->
  forall v,
    visits_once v (fst (fst (extract_all_urls_body w rec source depth v)))
                (snd (extract_all_urls_body w rec source depth v)).
Proof.
  intros Hrec v.
  unfold extract_all_urls_body, MM.bind, MM.contains, MM.attempt, MM.lift,
    MM.tell, MM.add, MM.echo, MM.ret, MM.raise, WM.ret; simpl.
  destruct (bool_decide_reflect (source ∈ v)) as [Hin|Hnot]; simpl.
  { apply visits_once_quiet, quiet_nil. }
  pose proof (quiet_read_sitemap w source) as Hq.
  destruct (read_sitemap w source) as [evs [xml|e]]; simpl in *.
  2:{ destruct (is_RequestException e); simpl; block_events Hnot. }
  pose proof (quiet_is_sitemap_index w xml) as Hqi.
  destruct (is_sitemap_index w xml) as [evi [[|]|e]]; simpl in *.
  - destruct (MAX_SITEMAP_DEPTH <=? depth); simpl; [block_events Hnot|].
    pose proof (quiet_extract_sitemaps_from_index w xml) as Hqx.
    destruct (extract_sitemaps_from_index w xml) as [evx [cs|e]]; simpl in *;
      [|block_events Hnot].
    pose proof (for_children_visits_once rec Hrec cs [] ({[source]} ∪ v))
      as Hc.
    destruct (for_children rec cs [] ({[source]} ∪ v)) as [[evc rc] vc];
      simpl in *.
    replace (Fetch source :: evs ++ Parse source :: evi
             ++ Echo false (MsgIndexDetected source) :: Parse source
             :: evx ++ evc)
      with ((Fetch source :: evs ++ Parse source :: evi
             ++ Echo false (MsgIndexDetected source) :: Parse source :: evx)
            ++ evc)
      by (simpl; repeat (rewrite <- app_assoc; simpl); reflexivity).
    apply visits_once_seq with ({[source]} ∪ v); [block_events Hnot|exact Hc].
  - pose proof (quiet_extract_urls_from_sitemap w xml) as Hqx.
    destruct (extract_urls_from_sitemap w xml) as [evx [cs|e]]; simpl in *;
      block_events Hnot.
  - block_events Hnot.
Qed.

(** Every call of the resolver, at any depth and from any visited set. *)
Lemma resolve_visits_once fuel :
  forall source depth v,
    visits_once v (fst (fst (resolve w fuel source depth v)))
                (snd (resolve w fuel source depth v)).
Proof.
  induction fuel as [|fuel IH]; intros source depth v.
  - apply visits_once_quiet, quiet_nil.
  - cbn [resolve]. apply body_visits_once. intros child v'. apply IH.
Qed.

Lemma extract_all_urls_visits_once source depth v :
  visits_once v (fst (fst (extract_all_urls w source depth v)))
              (snd (extract_all_urls w source depth v)).
Proof. apply resolve_visits_once. Qed.

End Visits.

(** ** One visit of a source at most *)














Section OnePass.
Variable w : World.





End OnePass.

(** ** Index trees *)

Lemma sitemap_tree_ind (P : sitemap_tree -> Prop) :
  (forall s urls, P (LeafDoc s urls)) ->
  (forall s ts, Forall P ts -> P (IndexDoc s ts)) ->
  forall t, P t.
Proof.
  intros Hleaf Hindex.
  fix IH 1. intros [s urls|s ts]; [apply Hleaf|].
  apply Hindex. induction ts as [|t ts IHts]; constructor; [apply IH|exact IHts].
Qed.

Section Trees.
Variable w : World.

Lemma for_children_trees rec ts :
  Forall (fun t => forall v,
            (forall s, s ∈ sources t -> s ∉ v) ->
            result (rec (root_source t) v)
            = (Ret (leaf_urls t), list_to_set (sources t) ∪ v)) ts ->
  forall all_urls v,
    NoDup (flat_map sources ts) ->
    (forall s, s ∈ flat_map sources ts -> s ∉ v) ->
    result (for_children rec (map root_source ts) all_urls v)
    = (Ret (all_urls ++ flat_map leaf_urls ts),
       list_to_set (flat_map sources ts) ∪ v).
Proof.
  induction 1 as [|t ts Ht _ IH]; intros all_urls v Hnodup Hfresh.
  - simpl. unfold result. simpl. rewrite app_nil_r. f_equal. set_solver.
  - simpl in Hnodup, Hfresh. apply NoDup_app in Hnodup as (Hnd1 & Hdisj & Hnd2).
    assert (forall s, s ∈ sources t -> s ∉ v) as Hfresh1
      by (intros s Hs; apply Hfresh; set_solver).
    specialize (Ht v Hfresh1).
    cbn [map for_children].
    unfold MM.bind, MM.echo, MM.attempt, MM.lift. simpl.
    unfold result in Ht.
    destruct (rec (root_source t) v) as [[evs r] v1]. simpl in Ht.
    injection Ht as -> ->. simpl.
    specialize (IH (all_urls ++ leaf_urls t)
                  (list_to_set (sources t) ∪ v) Hnd2).
    unfold result in IH |- *.
    destruct (for_children rec (map root_source ts) (all_urls ++ leaf_urls t)
                (list_to_set (sources t) ∪ v)) as [[evs2 r2] v2].
    simpl in *.
    rewrite IH.
    + rewrite <- app_assoc. f_equal. set_solver.
    + intros s Hs. specialize (Hdisj s). set_solver.
Qed.

(** What the body returns on an index document above the depth limit:
    what the loop over its children returns. *)
Lemma body_index_result rec source depth v evs xml_content child_sitemaps :
  source ∉ v ->
  read_sitemap w source = (evs, Ret xml_content) ->
  snd (is_sitemap_index w xml_content) = Ret true ->
  depth < MAX_SITEMAP_DEPTH ->
  snd (extract_sitemaps_from_index w xml_content) = Ret child_sitemaps ->
  result (extract_all_urls_body w rec source depth v)
  = result (for_children rec child_sitemaps [] ({[ source ]} ∪ v)).
Proof.
  intros Hnot Hread Hindex Hdepth Hextract.
  unfold extract_all_urls_body, MM.bind, MM.contains, MM.attempt, MM.lift,
    MM.tell, MM.add, MM.echo, MM.ret, MM.raise, WM.ret; simpl.
  rewrite bool_decide_eq_false_2 by exact Hnot. simpl.
  rewrite Hread. simpl.
  destruct (is_sitemap_index w xml_content) as [evi ri]. simpl in Hindex.
  subst ri. simpl.
  replace (MAX_SITEMAP_DEPTH <=? depth) with false by (symmetry; lia).
  simpl.
  destruct (extract_sitemaps_from_index w xml_content) as [evx rx].
  simpl in Hextract. subst rx. simpl.
  destruct (for_children rec child_sitemaps [] ({[ source ]} ∪ v))
    as [[evc rc] vc].
  reflexivity.
Qed.

(** What the body returns on a leaf document: its URLs. *)
Lemma body_leaf_result rec source depth v evs xml_content urls :
  source ∉ v ->
  read_sitemap w source = (evs, Ret xml_content) ->
  snd (is_sitemap_index w xml_content) = Ret false ->
  snd (extract_urls_from_sitemap w xml_content) = Ret urls ->
  result (extract_all_urls_body w rec source depth v)
  = (Ret urls, {[ source ]} ∪ v).
Proof.
  intros Hnot Hread Hindex Hextract.
  unfold extract_all_urls_body, MM.bind, MM.contains, MM.attempt, MM.lift,
    MM.tell, MM.add, MM.echo, MM.ret, MM.raise, WM.ret; simpl.
  rewrite bool_decide_eq_false_2 by exact Hnot. simpl.
  rewrite Hread. simpl.
  destruct (is_sitemap_index w xml_content) as [evi ri]. simpl in Hindex.
  subst ri. simpl.
  destruct (extract_urls_from_sitemap w xml_content) as [evx rx].
  simpl in Hextract. subst rx. reflexivity.
Qed.

Lemma serves_check_sound t : serves_check w t = true -> serves w t.
Proof.
  induction t as [source urls|source ts IH] using sitemap_tree_ind;
    cbn [serves_check]; intros Hcheck.
  - destruct (read_sitemap w source) as [evs [xml|e]] eqn:Hread;
      [|discriminate].
    destruct (snd (is_sitemap_index w xml)) as [[|]|e] eqn:Hindex;
      try discriminate.
    destruct (snd (extract_urls_from_sitemap w xml)) as [found|e] eqn:Hurls;
      [|discriminate].
    apply bool_decide_eq_true in Hcheck as ->.
    eapply serves_leaf; eassumption.
  - destruct (read_sitemap w source) as [evs [xml|e]] eqn:Hread;
      [|discriminate].
    destruct (snd (is_sitemap_index w xml)) as [[|]|e] eqn:Hindex;
      try discriminate.
    destruct (snd (extract_sitemaps_from_index w xml)) as [found|e]
      eqn:Hfound; [|discriminate].
    apply andb_true_iff in Hcheck as [Heq Hall].
    apply bool_decide_eq_true in Heq as ->.
    eapply serves_index; try eassumption.
    rewrite forallb_forall in Hall. rewrite Forall_forall in IH.
    apply Forall_forall. intros t Ht. apply IH; [exact Ht|].
    apply Hall, list_elem_of_In, Ht.
Qed.

Lemma index_height_subtree source ts t :
  t ∈ ts -> (index_height t < index_height (IndexDoc source ts))%nat.
Proof.
  intros Ht. cbn [index_height].
  assert (Forall (fun k => (k <= list_max (map index_height ts))%nat)
            (map index_height ts)) as Hall
    by (apply list_max_le; lia).
  rewrite Forall_forall in Hall.
  specialize (Hall (index_height t)).
  assert (index_height t ∈ map index_height ts) as Hin
    by (apply list_elem_of_In, in_map, list_elem_of_In, Ht).
  specialize (Hall Hin). lia.
Qed.

Lemma NoDup_flat_map_elem {A B} (f : A -> list B) (l : list A) (x : A) :
  NoDup (flat_map f l) -> x ∈ l -> NoDup (f x).
Proof.
  induction l as [|a l IH]; simpl; intros Hnd Hin.
  - inversion Hin.
  - apply NoDup_app in Hnd as (Ha & _ & Hl).
    apply elem_of_cons in Hin as [->|Hin]; auto.
Qed.

Lemma elem_of_flat_map_2 {A B} (f : A -> list B) (l : list A) (x : A) (y : B) :
  x ∈ l -> y ∈ f x -> y ∈ flat_map f l.
Proof.
  intros Hx Hy. apply list_elem_of_In, in_flat_map.
  exists x. split; apply list_elem_of_In; assumption.
Qed.

(** The resolver on a tree of distinct documents that fits under the depth
    limit: the URLs of its leaves, and every document visited. *)
Lemma extract_all_urls_tree t :
  forall depth v,
    serves w t ->
    depth + Z.of_nat (index_height t) <= MAX_SITEMAP_DEPTH ->
    NoDup (sources t) ->
    (forall s, s ∈ sources t -> s ∉ v) ->
    result (extract_all_urls w (root_source t) depth v)
    = (Ret (leaf_urls t), list_to_set (sources t) ∪ v).
Proof.
  induction t as [source urls|source ts IH] using sitemap_tree_ind;
    intros depth v Hserves Hheight Hnodup Hfresh;
    rewrite extract_all_urls_unfold; inversion Hserves; subst.
  - erewrite body_leaf_result; eauto.
    + simpl. f_equal. set_solver.
    + apply Hfresh. set_solver.
  - cbn [sources] in Hnodup, Hfresh.
    apply NoDup_cons in Hnodup as [Hhead Hnodup].
    assert (source ∉ v) as Hsource by (apply Hfresh; set_solver).
    erewrite body_index_result; eauto.
    + erewrite for_children_trees; eauto.
      * cbn [sources leaf_urls]. simpl. f_equal. set_solver.
      * apply Forall_forall. intros t Ht v' Hfresh'.
        rewrite Forall_forall in IH. rewrite Forall_forall in H4.
        apply IH; auto.
        -- pose proof (index_height_subtree source ts t Ht). lia.
        -- eapply NoDup_flat_map_elem; eauto.
      * intros s Hs.
        assert (s ∉ v) by (apply Hfresh; set_solver).
        assert (s <> source) by (intros ->; contradiction).
        set_solver.
    + pose proof (Nat.le_0_l (list_max (map index_height ts))).
      cbn [index_height] in Hheight. lia.
Qed.

End Trees.



(** ** Strings *)

Lemma append_cons c (s t : string) : String c s +:+ t = String c (s +:+ t).
Proof. reflexivity. Qed.

Lemma append_nil_l (t : string) : "" +:+ t = t.
Proof. reflexivity. Qed.

Lemma append_nil_r (s : string) : s +:+ "" = s.
Proof.
  induction s as [|c s IH]; [reflexivity|]. now rewrite append_cons, IH.
Qed.

Lemma rev_app_rev_app (s a b : string) :
  String.rev_app (String.rev_app s a) b = String.rev_app a (s +:+ b).
Proof.
  revert a. induction s as [|c s IH]; intros a; [reflexivity|].
  cbn [String.rev_app]. now rewrite IH, append_cons.
Qed.

Lemma string_rev_involutive (s : string) : String.rev (String.rev s) = s.
Proof.
  unfold String.rev. rewrite rev_app_rev_app. cbn [String.rev_app].
  apply append_nil_r.
Qed.

Lemma all_chars_rev_app q (s a : string) :
  all_chars q (String.rev_app s a) = all_chars q s && all_chars q a.
Proof.
  revert a. induction s as [|c s IH]; intros a; [reflexivity|].
  cbn. rewrite IH. cbn. destruct (q c), (all_chars q s); reflexivity.
Qed.

Lemma all_chars_rev q (s : string) :
  all_chars q (String.rev s) = all_chars q s.
Proof.
  unfold String.rev. rewrite all_chars_rev_app. cbn. apply andb_true_r.
Qed.

(** Stripping removes nothing from a string none of whose characters is to
    be stripped. *)
Lemma lstrip_by_none p (s : string) :
  all_chars (fun c => negb (p c)) s = true -> Str.lstrip_by p s = s.
Proof.
  destruct s as [|c s]; [reflexivity|]. cbn.
  destruct (p c); [discriminate|reflexivity].
Qed.

Lemma strip_by_none p (s : string) :
  all_chars (fun c => negb (p c)) s = true -> Str.strip_by p s = s.
Proof.
  intros H. unfold Str.strip_by, Str.rstrip_by.
  rewrite (lstrip_by_none p s H).
  rewrite lstrip_by_none by (now rewrite all_chars_rev).
  apply string_rev_involutive.
Qed.

Lemma string_append_assoc (x y z : string) :
  (x +:+ y) +:+ z = x +:+ (y +:+ z).
Proof.
  induction x as [|c x IH]; [reflexivity|]. now rewrite !append_cons, IH.
Qed.

Lemma rev_app_append (s a : string) :
  String.rev_app s a = String.rev s +:+ a.
Proof.
  revert a. induction s as [|c s IH]; intros a; [reflexivity|].
  unfold String.rev. cbn [String.rev_app].
  rewrite (IH (String c a)), (IH (String c "")).
  now rewrite string_append_assoc.
Qed.

Lemma rev_cons c (s : string) :
  String.rev (String c s) = String.rev s +:+ String c "".
Proof. unfold String.rev at 1. cbn [String.rev_app]. apply rev_app_append. Qed.

Lemma rev_snoc c (s : string) :
  String.rev (s +:+ String c "") = String c (String.rev s).
Proof.
  rewrite <- (string_rev_involutive (String c (String.rev s))).
  now rewrite rev_cons, string_rev_involutive.
Qed.

Lemma lstrip_by_first p (s : string) :
  match Str.lstrip_by p s with
  | EmptyString => True
  | String c _ => p c = false
  end.
Proof.
  induction s as [|c s IH]; [exact I|]. cbn.
  destruct (p c) eqn:Hc; [exact IH|exact Hc].
Qed.

Lemma lstrip_by_snoc p (s : string) c :
  p c = false ->
  Str.lstrip_by p (s +:+ String c "") = Str.lstrip_by p s +:+ String c "".
Proof.
  intros Hc. induction s as [|a s IH].
  - rewrite append_nil_l. cbn. now rewrite Hc.
  - rewrite append_cons. cbn. destruct (p a); [exact IH|].
    now rewrite append_cons.
Qed.

(** What [strip_by] returns neither starts nor ends with a character to be
    stripped. *)
Lemma strip_by_trimmed p (s : string) :
  match Str.strip_by p s with
  | EmptyString => True
  | String c _ => p c = false
  end
  /\ match String.rev (Str.strip_by p s) with
     | EmptyString => True
     | String c _ => p c = false
     end.
Proof.
  unfold Str.strip_by, Str.rstrip_by. split.
  - pose proof (lstrip_by_first p s) as Hfirst.
    destruct (Str.lstrip_by p s) as [|c r]; [exact I|].
    rewrite rev_cons, (lstrip_by_snoc p _ c Hfirst), rev_snoc. exact Hfirst.
  - rewrite string_rev_involutive. apply lstrip_by_first.
Qed.

(** [s.strip()] has no white space at either end. *)
Lemma strip_trimmed (s : string) :
  match Str.strip s with
  | EmptyString => True
  | String c _ => Str.isspace c = false
  end
  /\ match String.rev (Str.strip s) with
     | EmptyString => True
     | String c _ => Str.isspace c = false
     end.
Proof. apply strip_by_trimmed. Qed.

Lemma all_chars_impl (q q' : ascii -> bool) (s : string) :
  (forall c, q c = true -> q' c = true) ->
  all_chars q s = true -> all_chars q' s = true.
Proof.
  intros Hq. induction s as [|c s IH]; [reflexivity|]. cbn.
  intros [Hc Hs]%andb_true_iff. now rewrite (Hq c Hc), IH.
Qed.

Lemma before_first_append c (s t : string) :
  all_chars (fun a => negb (Ascii.eqb a c)) s = true ->
  Str.before_first c (s +:+ String c t) = s.
Proof.
  induction s as [|a s IH].
  - rewrite append_nil_l. cbn. now rewrite Ascii.eqb_refl.
  - rewrite append_cons. cbn. intros [Ha Hs]%andb_true_iff.
    destruct (Ascii.eqb a c); [discriminate|]. now rewrite IH.
Qed.

(** The namespace the extractors read off the tag of a qualified root. *)
Lemma uri_of_qualified_tag uri name :
  brace_free uri = true ->
  Str.strip_char "{" (Str.before_first "}" (qualify (Some uri) name)) = uri.
Proof.
  intros Huri. unfold qualify.
  change ("{" +:+ uri +:+ "}" +:+ name)
    with (String "{" (uri +:+ String "}" name)).
  cbn [Str.before_first]. change (Ascii.eqb "{" "}") with false. cbn iota.
  rewrite before_first_append.
  2:{ revert Huri. apply all_chars_impl. intros c.
      now intros [_ H]%andb_true_iff. }
  unfold Str.strip_char, Str.strip_by. cbn [Str.lstrip_by].
  rewrite Ascii.eqb_refl.
  assert (all_chars (fun c => negb (Ascii.eqb "{" c)) uri = true) as Hnone.
  { revert Huri. apply all_chars_impl. intros c.
    rewrite Ascii.eqb_sym. now intros [H _]%andb_true_iff. }
  fold (Str.strip_by (Ascii.eqb "{") uri).
  now apply strip_by_none.
Qed.

(** ** Element trees and namespaces *)

Lemma Element_ind (P : Element -> Prop) :
  (forall t x cs, Forall P cs -> P (Elem t x cs)) -> forall e, P e.
Proof.
  intros H. fix IH 1. intros [t x cs]. apply H.
  induction cs as [|c cs IHcs]; constructor; [apply IH|exact IHcs].
Qed.

Lemma tag_in_namespace ns e : tag (in_namespace ns e) = qualify ns (tag e).
Proof. now destruct e. Qed.

Lemma text_in_namespace ns e : text (in_namespace ns e) = text e.
Proof. now destruct e. Qed.

Lemma children_in_namespace ns e :
  children (in_namespace ns e) = map (in_namespace ns) (children e).
Proof. now destruct e. Qed.

Lemma iter_in_namespace ns e :
  iter (in_namespace ns e) = map (in_namespace ns) (iter e).
Proof.
  induction e as [t x cs IH] using Element_ind.
  cbn [in_namespace iter map]. f_equal.
  induction IH as [|c cs Hc _ IHcs]; [reflexivity|].
  cbn [map flat_map]. now rewrite map_app, Hc, IHcs.
Qed.

Lemma descendants_in_namespace ns e :
  flat_map iter (children (in_namespace ns e))
  = map (in_namespace ns) (flat_map iter (children e)).
Proof.
  rewrite children_in_namespace.
  induction (children e) as [|c cs IH]; [reflexivity|].
  cbn [map flat_map]. now rewrite map_app, iter_in_namespace, IH.
Qed.

Lemma qualify_eqb ns a b :
  String.eqb (qualify ns a) (qualify ns b) = String.eqb a b.
Proof.
  destruct ns as [uri|]; [|reflexivity]. unfold qualify.
  destruct (String.eqb_spec a b) as [->|Hne].
  - apply String.eqb_refl.
  - apply String.eqb_neq. intros Heq. apply Hne.
    change (String "{" (uri +:+ String "}" a)
            = String "{" (uri +:+ String "}" b)) in Heq.
    injection Heq as Heq. apply String.app_inj in Heq. now injection Heq.
Qed.

(** The [loc] elements of a document all of whose elements are in one
    namespace are those of the plain document. *)
Lemma locs_in_in_namespace ns doc :
  locs_in ns (in_namespace ns doc) = map (in_namespace ns) (locs doc).
Proof.
  unfold locs_in, locs. rewrite descendants_in_namespace.
  induction (flat_map iter (children doc)) as [|e l IH]; [reflexivity|].
  cbn [map List.filter]. rewrite tag_in_namespace, qualify_eqb, IH.
  now destruct (String.eqb (tag e) "loc").
Qed.

Lemma stripped_texts_in_namespace ns l :
  stripped_texts (map (in_namespace ns) l) = stripped_texts l.
Proof.
  unfold stripped_texts.
  induction l as [|e l IH]; [reflexivity|].
  cbn [map List.filter]. rewrite text_in_namespace.
  destruct (truthy (text e)); cbn [map]; rewrite IH; [|reflexivity].
  unfold text_strip. now rewrite text_in_namespace.
Qed.

(** Where no text is made of white space only, the comprehension keeps the
    texts that are not blank. *)
Lemma stripped_texts_not_blank l :
  Forall (fun e => match text e with
                   | Some s => Str.whitespace_only s = false
                   | None => True
                   end) l ->
  stripped_texts l
  = omap (fun e => if blank (text e) then None else Str.strip <$> text e) l.
Proof.
  unfold stripped_texts.
  induction 1 as [|e l He _ IH]; [reflexivity|].
  change (omap ?f (e :: l))
    with (match f e with Some y => y :: omap f l | None => omap f l end).
  cbn beta. cbn [List.filter].
  destruct (text e) as [[|c s]|] eqn:Htext.
  - exact IH.
  - unfold Str.whitespace_only in He. cbn [truthy blank].
    destruct (Str.lstrip_by Str.isspace (String c s)); [discriminate|].
    cbn [map fmap option_fmap option_map].
    unfold text_strip at 1. now rewrite Htext, <- IH.
  - exact IH.
Qed.

Lemma length_omap_le {A B} (f : A -> option B) (l : list A) :
  (length (omap f l) <= length l)%nat.
Proof.
  induction l as [|a l IH]; [reflexivity|]. cbn.
  destruct (f a); cbn; lia.
Qed.

Lemma length_omap_all {A B} (f : A -> option B) (l : list A) :
  Forall (fun a => is_Some (f a)) l -> length (omap f l) = length l.
Proof.
  induction 1 as [|a l [b Hb] _ IH]; [reflexivity|]. cbn.
  rewrite Hb. cbn. now rewrite IH.
Qed.

Lemma startswith_brace_free (s : string) :
  brace_free s = true -> Str.startswith "{" s = false.
Proof.
  destruct s as [|c s]; [reflexivity|].
  unfold Str.startswith, brace_free. cbn -[ascii_dec Ascii.eqb].
  destruct (ascii_dec "{" c) as [<-|Hne]; [discriminate|reflexivity].
Qed.

Lemma startswith_qualified uri name :
  Str.startswith "{" (qualify (Some uri) name) = true.
Proof.
  unfold Str.startswith, qualify.
  change ("{" +:+ uri +:+ "}" +:+ name)
    with (String "{" (uri +:+ String "}" name)).
  cbn -[String.append]. now destruct (uri +:+ String "}" name).
Qed.

(** ** The steps that select by equality *)

Lemma prefix_cons_eq a (p s : string) :
  String.prefix (String a p) (String a s) = String.prefix p s.
Proof.
  cbn -[ascii_dec]. destruct (ascii_dec a a); [reflexivity|contradiction].
Qed.

Lemma prefix_cons_ne a b (p s : string) :
  a <> b -> String.prefix (String a p) (String b s) = false.
Proof.
  intros Hne. cbn -[ascii_dec].
  destruct (ascii_dec a b); [contradiction|reflexivity].
Qed.

Lemma rev_append (a b : string) :
  String.rev (a +:+ b) = String.rev b +:+ String.rev a.
Proof.
  induction a as [|c a IH].
  - rewrite append_nil_l. cbn. now rewrite append_nil_r.
  - now rewrite append_cons, !rev_cons, IH, string_append_assoc.
Qed.

(** A step that is no wildcard selects the elements with its very tag. *)
Lemma tag_selected_plain T t :
  String.eqb T "*" = false ->
  String.eqb T "{*}*" = false ->
  String.eqb T "{}*" = false ->
  Str.startswith "{*}" T = false ->
  Str.endswith "}*" T = false ->
  Str.startswith "{}" T = false ->
  tag_selected T t = String.eqb t T.
Proof.
  intros H1 H2 H3 H4 H5 H6. unfold tag_selected.
  now rewrite H1, H2, H3, H4, H5, H6.
Qed.

Lemma brace_free_cons c (s : string) :
  brace_free (String c s) = true ->
  c <> "{"%char /\ c <> "}"%char /\ brace_free s = true.
Proof.
  unfold brace_free. cbn.
  intros [[H1 H2]%andb_true_iff Hs]%andb_true_iff.
  repeat split; [intros -> ..|exact Hs]; discriminate.
Qed.

(** The step for [loc] in an ordinary namespace is no wildcard. *)
Lemma tag_selected_loc ns t :
  ordinary_namespace ns ->
  tag_selected (qualify ns "loc") t = String.eqb t (qualify ns "loc").
Proof.
  intros Hns. destruct ns as [uri|].
  2:{ apply tag_selected_plain; reflexivity. }
  destruct Hns as (Hne & Hstar & Hfree).
  destruct uri as [|c u]; [contradiction|].
  apply brace_free_cons in Hfree as (Hc1 & Hc2 & Hu).
  unfold qualify.
  change ("{" +:+ String c u +:+ "}" +:+ "loc")
    with (String "{" (String c (u +:+ "}loc"))).
  apply tag_selected_plain.
  - reflexivity.
  - apply String.eqb_neq. intros Heq. injection Heq as -> Heq.
    destruct u as [|d u]; [discriminate|].
    apply brace_free_cons in Hu as (_ & Hd & _).
    rewrite append_cons in Heq. injection Heq as -> _. contradiction.
  - apply String.eqb_neq. intros Heq. injection Heq as -> _. contradiction.
  - unfold Str.startswith. rewrite prefix_cons_eq.
    destruct (ascii_dec "*" c) as [<-|Hc].
    + rewrite prefix_cons_eq. destruct u as [|d u]; [contradiction|].
      apply brace_free_cons in Hu as (_ & Hd & _).
      rewrite append_cons. apply prefix_cons_ne. congruence.
    + now apply prefix_cons_ne.
  - unfold Str.endswith.
    change (String "{" (String c (u +:+ "}loc")))
      with (String "{" (String c u) +:+ "}loc").
    rewrite rev_append.
    change (String.rev "}loc") with "col}".
    change (String.rev "}*") with "*}".
    rewrite append_cons. apply prefix_cons_ne. discriminate.
  - unfold Str.startswith. rewrite prefix_cons_eq.
    apply prefix_cons_ne. congruence.
Qed.

Lemma findall_descendants_loc ns root :
  ordinary_namespace ns ->
  findall_descendants (qualify ns "loc") root = locs_in ns root.
Proof.
  intros Hns. unfold findall_descendants, locs_in.
  induction (flat_map iter (children root)) as [|e l IH]; [reflexivity|].
  cbn [List.filter]. now rewrite tag_selected_loc, IH.
Qed.

Section Extractor.
Variable w : World.

(** What the extractor returns on a well-formed document whose root is in
    an ordinary namespace, or in none. *)
Lemma extract_urls_from_sitemap_locs_in xml_content ns name root :
  fromstring w xml_content = Some root ->
  tag root = qualify ns name ->
  brace_free name = true ->
  ordinary_namespace ns ->
  extract_urls_from_sitemap w xml_content
  = ([], Ret (stripped_texts (locs_in ns root))).
Proof.
  intros Hparse Htag Hname Hns.
  unfold extract_urls_from_sitemap, ET_fromstring. rewrite Hparse.
  cbn [WM.try_except WM.ret WM.bind]. rewrite Htag.
  destruct ns as [uri|].
  - pose proof Hns as (_ & _ & Huri).
    rewrite startswith_qualified.
    rewrite uri_of_qualified_tag by exact Huri.
    unfold findall. rewrite lookup_singleton_eq.
    change ("{" +:+ uri +:+ "}" +:+ "loc") with (qualify (Some uri) "loc").
    rewrite (findall_descendants_loc (Some uri) root Hns).
    reflexivity.
  - cbn [qualify]. rewrite (startswith_brace_free _ Hname).
    unfold findall.
    change "loc" with (qualify None "loc") at 1.
    rewrite (findall_descendants_loc None root Hns).
    reflexivity.
Qed.

End Extractor.

(** ** Sources that were visited before *)

Section Visited.
Variable w : World.

Lemma extract_all_urls_visited source depth visited :
  source ∈ visited ->
  extract_all_urls w source depth visited = (([], Ret []), visited).
Proof.
  intros Hin. rewrite extract_all_urls_unfold.
  unfold extract_all_urls_body, MM.bind, MM.contains, MM.ret, WM.ret.
  cbn. now rewrite bool_decide_eq_true_2.
Qed.

(** One turn of the loop, as far as the value and the set go. *)
Lemma result_for_children_cons rec child rest all_urls v :
  result (for_children rec (child :: rest) all_urls v)
  = match result (rec child v) with
    | (Ret urls, v1) => result (for_children rec rest (all_urls ++ urls) v1)
    | (Raise e, v1) => result (for_children rec rest all_urls v1)
    end.
Proof.
  cbn [for_children]. unfold MM.bind, MM.echo, MM.attempt, MM.lift, result.
  cbn. destruct (rec child v) as [[evs [urls|e]] v1]; cbn.
  - now destruct (for_children rec rest (all_urls ++ urls) v1) as [[? ?] ?].
  - now destruct (for_children rec rest all_urls v1) as [[? ?] ?].
Qed.

(** The children that name a visited source can be left out of the loop:
    the URLs returned and the set left are the same. *)
Lemma for_children_skips_visited source depth child_sitemaps :
  forall all_urls visited,
    source ∈ visited ->
    result (for_children (fun child => extract_all_urls w child depth)
              child_sitemaps all_urls visited)
    = result (for_children (fun child => extract_all_urls w child depth)
                (List.filter (fun child => negb (String.eqb child source))
                             child_sitemaps)
                all_urls visited).
Proof.
  induction child_sitemaps as [|child rest IH]; intros all_urls visited Hin;
    [reflexivity|].
  cbn [List.filter]. destruct (String.eqb_spec child source) as [->|Hne].
  - cbn [negb]. rewrite result_for_children_cons.
    rewrite (extract_all_urls_visited source depth visited Hin).
    cbn. rewrite app_nil_r. now apply IH.
  - cbn [negb]. rewrite !result_for_children_cons.
    pose proof (extract_all_urls_visits_once w child depth visited)
      as [Hsub _].
    destruct (extract_all_urls w child depth visited) as [[evs [urls|e]] v1];
      cbn in *; apply IH; set_solver.
Qed.

End Visited.

(** ** Failed retrievals *)

Section Failures.
Variable w : World.

Lemma fetch_attempts_all_fail source todo :
  forall last_exc,
    Forall (fun a => attempt_failed (requests_get w source a) = true) todo ->
    snd (fetch_attempts w source todo last_exc)
    = Ret (inr (last_raised (map (requests_get w source) todo) last_exc)).
Proof.
  induction todo as [|attempt rest IH]; intros last_exc Hall; [reflexivity|].
  apply Forall_cons in Hall as [Hfail Hall].
  cbn [fetch_attempts map last_raised].
  destruct (requests_get w source attempt) as [status_code body|e];
    cbn in Hfail |- *.
  - destruct (status_code =? 200); [discriminate|].
    specialize (IH last_exc Hall).
    destruct (fetch_attempts w source rest last_exc) as [evs r].
    cbn in *. exact IH.
  - specialize (IH (Some e) Hall).
    destruct (fetch_attempts w source rest (Some e)) as [evs r].
    cbn in *. exact IH.
Qed.

(** Three failed attempts and no Playwright: [read_sitemap] raises a
    [RequestException] whose message carries the last exception that an
    attempt raised, [None] when every attempt got an HTTP status. *)
Lemma read_sitemap_all_attempts_fail source :
  is_remote source = true ->
  Forall (fun a => attempt_failed (requests_get w source a) = true) (seq 0 3) ->
  PLAYWRIGHT_AVAILABLE w = false ->
  snd (read_sitemap w source)
  = Raise (RequestException
             (FailedAfter3 source
                (last_raised (map (requests_get w source) (seq 0 3)) None))).
Proof.
  intros Hremote Hall Hpw. unfold read_sitemap.
  unfold is_remote in Hremote. rewrite Hremote.
  pose proof (fetch_attempts_all_fail source (seq 0 3) None Hall) as Hloop.
  destruct (fetch_attempts w source (seq 0 3) None) as [evs r].
  cbn in Hloop. subst r. cbn [WM.bind]. rewrite Hpw. reflexivity.
Qed.

(** A [RequestException] of the fetcher stops in [extract_all_urls]: a
    warning, and the empty list. *)
Lemma extract_all_urls_fetch_failed source depth visited evs why :
  source ∉ visited ->
  read_sitemap w source = (evs, Raise (RequestException why)) ->
  extract_all_urls w source depth visited
  = ((Fetch source
        :: evs ++ [Echo true (MsgCouldNotFetch source (RequestException why))],
      Ret []),
     {[ source ]} ∪ visited).
Proof.
  intros Hnot Hread. rewrite extract_all_urls_unfold.
  unfold extract_all_urls_body, MM.bind, MM.contains, MM.attempt, MM.lift,
    MM.tell, MM.add, MM.echo, MM.ret, WM.ret.
  cbn. rewrite bool_decide_eq_false_2 by exact Hnot.
  cbn. rewrite Hread. reflexivity.
Qed.

(** A document that the parser rejects is a leaf whose extraction fails;
    the failure stops in [extract_all_urls]. *)
Lemma extract_all_urls_parse_failed source depth visited evs xml_content :
  source ∉ visited ->
  read_sitemap w source = (evs, Ret xml_content) ->
  fromstring w xml_content = None ->
  extract_all_urls w source depth visited
  = ((Fetch source
        :: evs ++ [Parse source; Parse source; Echo true MsgErrorParsingXML;
                   Echo true (MsgCouldNotParse source (Exit 1))],
      Ret []),
     {[ source ]} ∪ visited).
Proof.
  intros Hnot Hread Hparse. rewrite extract_all_urls_unfold.
  unfold extract_all_urls_body, MM.bind, MM.contains, MM.attempt, MM.lift,
    MM.tell, MM.add, MM.echo, MM.ret, WM.ret.
  cbn. rewrite bool_decide_eq_false_2 by exact Hnot.
  cbn. rewrite Hread. cbn.
  unfold is_sitemap_index, extract_urls_from_sitemap, ET_fromstring.
  rewrite Hparse. reflexivity.
Qed.

End Failures.

(** * The claims of the specification *)

(** ** The extractor *)

(** C10.  The extractor of the children of an index and the extractor of
    the URLs of a leaf are the same function: on every input, whatever the
    parser makes of it, they print the same, and return the same list or
    raise the same exception. *)
Theorem extract_sitemaps_from_index_same_as_extract_urls_from_sitemap
    (w : World) (x : string) :
  extract_sitemaps_from_index w x = extract_urls_from_sitemap w x.
Proof.
  unfold extract_sitemaps_from_index, extract_urls_from_sitemap.
  destruct (ET_fromstring w x) as [evs [root|e]]; reflexivity.
Qed.

(** A document with an empty and a white [loc]: two [loc] elements, one
    string returned, and that string is empty. *)
Lemma blank_locs_counterexample :
  fromstring Scenario.world Scenario.blank_xml
    = Some (Elem "urlset" None
              [Scenario.url_entry None; Scenario.url_entry (Some " ")])
  /\ length (locs (Elem "urlset" None
              [Scenario.url_entry None; Scenario.url_entry (Some " ")]))
     = 2%nat
  /\ extract_urls_from_sitemap Scenario.world Scenario.blank_xml
     = ([], Ret [""])
  /\ ~ (exists urls,
          snd (extract_urls_from_sitemap Scenario.world Scenario.blank_xml)
            = Ret urls
          /\ length urls = 2%nat)
  /\ ~ (snd (extract_urls_from_sitemap Scenario.world Scenario.blank_xml)
        = Ret []).
Proof.
  assert (extract_urls_from_sitemap Scenario.world Scenario.blank_xml
          = ([], Ret [""])) as Hrun by (vm_compute; reflexivity).
  repeat split; try (vm_compute; reflexivity); try exact Hrun.
  - rewrite Hrun. intros (urls & Hurls & Hlen). cbn in Hurls.
    injection Hurls as <-. discriminate.
  - rewrite Hrun. discriminate.
Qed.

(** In a sitemap with images the [loc] of the image is in another
    namespace than the root: two elements are called [loc], and the
    extractor returns the text of the one in the namespace of the root. *)
Example image_loc_not_read :
  fromstring Scenario.image_world Scenario.image_xml
    = Some Scenario.image_root
  /\ length (List.filter (fun e => String.eqb (local_name (tag e)) "loc")
               (flat_map iter (children Scenario.image_root))) = 2%nat
  /\ extract_urls_from_sitemap Scenario.image_world Scenario.image_xml
     = ([], Ret ["https://a.test/x"]).
Proof.
  repeat split; vm_compute; reflexivity.
Qed.

(** A root in the namespace [*] makes the path [{*}loc], which selects
    the [loc] elements of every namespace and of none. *)
Example star_namespace_reads_every_loc :
  extract_urls_from_sitemap Scenario.star_world Scenario.star_xml
  = ([], Ret ["a"; "b"; "c"]).
Proof. vm_compute. reflexivity. Qed.

(** C3 (amended).  For every well-formed leaf document whose root element
    is in no namespace, or in a namespace [ns] whose URI is not empty, holds
    no brace and is not [*], and in which no [loc] element of that namespace
    has a text made of white space only, [extract_urls_from_sitemap]
    returns, in document order, the trimmed text of each [loc] element of
    the namespace of the root, found at any depth below the root, whose text
    is not blank.  A [loc] element of another namespace is not read, and one
    without text or with an empty text gives no string: at most N strings
    are returned for N [loc] elements of the root's namespace, and exactly N
    when each of them has a text that is not blank. *)
Theorem extract_urls_from_sitemap_trimmed_loc_texts
    (w : World) (xml_content : string) (ns : option string) (name : string)
    (root : Element) :
  fromstring w xml_content = Some root ->
  tag root = qualify ns name ->
  brace_free name = true ->
  ordinary_namespace ns ->
  no_whitespace_only (locs_in ns root) ->
  extract_urls_from_sitemap w xml_content
  = ([], Ret (trimmed_texts (locs_in ns root)))
  /\ (length (trimmed_texts (locs_in ns root))
      <= length (locs_in ns root))%nat
  /\ (Forall (fun e => blank (text e) = false) (locs_in ns root) ->
      length (trimmed_texts (locs_in ns root)) = length (locs_in ns root)).
Proof.
  intros Hparse Htag Hname Hns Hwhite.
  split; [|split].
  - rewrite (extract_urls_from_sitemap_locs_in w _ ns name root)
      by assumption.
    unfold trimmed_texts.
    now rewrite <- (stripped_texts_not_blank (locs_in ns root) Hwhite).
  - apply length_omap_le.
  - intros Hall. apply length_omap_all.
    eapply Forall_impl; [exact Hall|]. cbn beta. intros e He. rewrite He.
    destruct (text e) as [s|]; [now exists (Str.strip s)|discriminate].
Qed.

(** In the sitemap with images, whose root is in the sitemap namespace, the
    URL of the page is read and the [loc] of the image is not. *)
Lemma extract_urls_from_sitemap_trimmed_loc_texts_witness :
  extract_urls_from_sitemap Scenario.image_world Scenario.image_xml
  = ([], Ret ["https://a.test/x"]).
Proof.
  refine (proj1 (extract_urls_from_sitemap_trimmed_loc_texts
                   Scenario.image_world Scenario.image_xml
                   (Some Scenario.sitemap_ns) "urlset"
                   Scenario.image_root _ _ _ _ _)).
  - vm_compute. reflexivity.
  - reflexivity.
  - reflexivity.
  - split; [discriminate|split; [discriminate|vm_compute; reflexivity]].
  - unfold no_whitespace_only. vm_compute. repeat constructor.
Defined.

(** A document all of whose elements are in one namespace gives what the
    same document without a namespace gives. *)
Lemma extract_urls_from_sitemap_namespace_or_none
    (w : World) (plain qualified : string) (ns : option string)
    (doc : Element) :
  fromstring w plain = Some doc ->
  fromstring w qualified = Some (in_namespace ns doc) ->
  brace_free (tag doc) = true ->
  ordinary_namespace ns ->
  extract_urls_from_sitemap w qualified = extract_urls_from_sitemap w plain.
Proof.
  intros Hplain Hqualified Hname Hns.
  rewrite (extract_urls_from_sitemap_locs_in w qualified ns (tag doc)
             (in_namespace ns doc) Hqualified (tag_in_namespace ns doc)
             Hname Hns).
  rewrite (extract_urls_from_sitemap_locs_in w plain None (tag doc) doc
             Hplain eq_refl Hname I).
  now rewrite locs_in_in_namespace, stripped_texts_in_namespace.
Qed.

(** ** The classifier *)

(** On the unclosed document the classifier answers "leaf"; it raises
    nothing. *)
Lemma is_sitemap_index_malformed_counterexample :
  fromstring Scenario.world Scenario.bad_xml = None
  /\ is_sitemap_index Scenario.world Scenario.bad_xml = ([], Ret false)
  /\ ~ (exists e,
          snd (is_sitemap_index Scenario.world Scenario.bad_xml) = Raise e).
Proof.
  repeat split; try (vm_compute; reflexivity).
  intros [e He]. vm_compute in He. discriminate.
Qed.

(** C5 (amended).  For every document that is not well-formed XML, the
    classifier catches the [ParseError] of the parser and returns [False]
    (the document counts as a leaf); it prints nothing and raises
    nothing. *)
Theorem is_sitemap_index_malformed (w : World) (xml_content : string) :
  fromstring w xml_content = None ->
  is_sitemap_index w xml_content = ([], Ret false).
Proof.
  intros Hparse. unfold is_sitemap_index, ET_fromstring.
  now rewrite Hparse.
Qed.

Lemma is_sitemap_index_malformed_witness :
  is_sitemap_index Scenario.world Scenario.bad_xml = ([], Ret false).
Proof.
  apply (is_sitemap_index_malformed Scenario.world Scenario.bad_xml).
  vm_compute. reflexivity.
Defined.

(** ** The resolver *)

(** C8.  Whenever [extract_all_urls] is called at a depth of 20 or more on
    a source whose document is an index, it prints the message that the
    maximal depth is reached on the error stream and returns the empty
    list: nothing is raised, no child is visited. *)
Theorem extract_all_urls_index_at_max_depth
    (w : World) (source : string) (depth : Z) (visited : gset string)
    (evs evs' : list event) (xml_content : string) :
  source ∉ visited ->
  read_sitemap w source = (evs, Ret xml_content) ->
  is_sitemap_index w xml_content = (evs', Ret true) ->
  20 <= depth ->
  extract_all_urls w source depth visited
  = ((Fetch source :: evs ++ Parse source :: evs'
        ++ [Echo true (MsgMaxDepth source)],
      Ret []),
     {[ source ]} ∪ visited).
Proof.
  intros Hnot Hread Hindex Hdepth. rewrite extract_all_urls_unfold.
  unfold extract_all_urls_body, MM.bind, MM.contains, MM.attempt, MM.lift,
    MM.tell, MM.add, MM.echo, MM.ret, WM.ret.
  cbn. rewrite bool_decide_eq_false_2 by exact Hnot.
  cbn. rewrite Hread. cbn. rewrite Hindex. cbn.
  replace (MAX_SITEMAP_DEPTH <=? depth) with true
    by (symmetry; apply Z.leb_le; exact Hdepth).
  cbn. reflexivity.
Qed.

Lemma extract_all_urls_index_at_max_depth_witness :
  extract_all_urls Scenario.world "index.xml" 20 ∅
  = (([Fetch "index.xml"; Parse "index.xml";
       Echo true (MsgMaxDepth "index.xml")],
      Ret []),
     {[ "index.xml" ]} ∪ ∅).
Proof.
  apply (extract_all_urls_index_at_max_depth Scenario.world "index.xml" 20 ∅
           [] [] Scenario.index_xml).
  - apply not_elem_of_empty.
  - vm_compute. reflexivity.
  - vm_compute. reflexivity.
  - lia.
Defined.

(** C9.  Whenever [extract_all_urls] is called on a source that is in the
    visited set, it returns the empty list and does nothing else: no
    message, no exception, the set unchanged.  So the entries of an index
    that name a visited source, the index itself among them, add nothing to
    what its loop returns: the loop ends with the URLs of the other
    entries. *)
Theorem extract_all_urls_visited_source
    (w : World) (source : string) (depth : Z) (visited : gset string) :
  source ∈ visited ->
  extract_all_urls w source depth visited = (([], Ret []), visited)
  /\ forall child_sitemaps all_urls child_depth,
       result (for_children (fun child => extract_all_urls w child child_depth)
                 child_sitemaps all_urls visited)
       = result (for_children
                   (fun child => extract_all_urls w child child_depth)
                   (List.filter (fun child => negb (String.eqb child source))
                                child_sitemaps)
                   all_urls visited).
Proof.
  intros Hin. split.
  - now apply extract_all_urls_visited.
  - intros child_sitemaps all_urls child_depth.
    now apply for_children_skips_visited.
Qed.

(** The index that names itself and [a.xml]: the inner call on the index
    returns nothing, and the resolution returns the URL of [a.xml]. *)
Lemma extract_all_urls_visited_source_witness :
  extract_all_urls Scenario.world "self.xml" 1 {[ "self.xml" ]}
    = (([], Ret []), {[ "self.xml" ]})
  /\ snd (extract_all_urls_call Scenario.world "self.xml")
     = Ret ["https://a.test/x"].
Proof.
  split.
  - apply (extract_all_urls_visited_source Scenario.world "self.xml" 1
             {[ "self.xml" ]}).
    apply elem_of_singleton. reflexivity.
  - vm_compute. reflexivity.
Defined.


(** An index that names a leaf, itself and the leaf again: the index and
    the leaf are each fetched once and go once through the classifier and
    an extractor; the URL of the leaf is returned once. *)
Example diamond_processed_once :
  marks "diamond.xml"
    (fst (extract_all_urls_call Scenario.diamond_world "diamond.xml"))
  = one_visit "diamond.xml"
  /\ marks "a.xml"
       (fst (extract_all_urls_call Scenario.diamond_world "diamond.xml"))
     = one_visit "a.xml"
  /\ snd (extract_all_urls_call Scenario.diamond_world "diamond.xml")
     = Ret ["https://a.test/x"].
Proof.
  repeat split; vm_compute; reflexivity.
Qed.

(** Twenty-one nested indexes above one leaf: the last index is met at
    depth 20 and is not opened, its leaf is never read. *)
Lemma deep_chain_counterexample :
  serves (Scenario.chain_world 21) (Scenario.chain 0 21)
  /\ NoDup (sources (Scenario.chain 0 21))
  /\ leaf_urls (Scenario.chain 0 21) = ["https://a.test/deep"]
  /\ snd (extract_all_urls_call (Scenario.chain_world 21)
            (root_source (Scenario.chain 0 21)))
     = Ret []
  /\ ~ (snd (extract_all_urls_call (Scenario.chain_world 21)
               (root_source (Scenario.chain 0 21)))
        = Ret (leaf_urls (Scenario.chain 0 21))).
Proof.
  assert (snd (extract_all_urls_call (Scenario.chain_world 21)
                 (root_source (Scenario.chain 0 21)))
          = Ret []) as Hrun by (vm_compute; reflexivity).
  split; [|split; [|split; [|split]]].
  - apply serves_check_sound. vm_compute. reflexivity.
  - refine (bool_decide_unpack _ _). vm_compute. exact I.
  - reflexivity.
  - exact Hrun.
  - rewrite Hrun. discriminate.
Qed.

(** C1 (amended).  For every tree of sitemap documents whose sources are
    pairwise distinct, that the world holds, and on no branch of which more
    than 20 indexes are nested (every index is at a depth below 20),
    [extract_all_urls(source)] returns exactly the concatenation, depth
    first and in document order, of the URL lists of the leaves of the
    tree. *)
Theorem extract_all_urls_index_tree (w : World) (t : sitemap_tree) :
  serves w t ->
  NoDup (sources t) ->
  (index_height t <= 20)%nat ->
  snd (extract_all_urls_call w (root_source t)) = Ret (leaf_urls t).
Proof.
  intros Hserves Hnodup Hheight.
  assert (result (extract_all_urls w (root_source t) 0 ∅)
          = (Ret (leaf_urls t), list_to_set (sources t) ∪ ∅)) as Hrun.
  { apply extract_all_urls_tree; auto.
    - unfold MAX_SITEMAP_DEPTH. lia.
    - intros s _. apply not_elem_of_empty. }
  unfold extract_all_urls_call. unfold result in Hrun.
  now injection Hrun as -> _.
Qed.

(** The index of two leaves of one URL each: both URLs, in the order of
    the entries of the index. *)
Lemma extract_all_urls_index_tree_witness :
  snd (extract_all_urls_call Scenario.world "index.xml")
  = Ret ["https://a.test/x"; "https://a.test/y"].
Proof.
  apply (extract_all_urls_index_tree Scenario.world Scenario.two_leaves).
  - apply serves_check_sound. vm_compute. reflexivity.
  - refine (bool_decide_unpack _ _). vm_compute. exact I.
  - cbn. lia.
Defined.

(** The index whose first child cannot be parsed: the resolution goes on
    and returns the URL of the second child. *)
Lemma malformed_leaf_counterexample :
  fromstring Scenario.world Scenario.bad_xml = None
  /\ snd (read_sitemap Scenario.world "bad.xml") = Ret Scenario.bad_xml
  /\ snd (is_sitemap_index Scenario.world Scenario.bad_xml) = Ret false
  /\ snd (extract_all_urls_call Scenario.world "mixed.xml")
     = Ret ["https://a.test/y"]
  /\ ~ (exists e,
          snd (extract_all_urls_call Scenario.world "mixed.xml") = Raise e).
Proof.
  repeat split; try (vm_compute; reflexivity).
  intros [e He]. vm_compute in He. discriminate.
Qed.

(** C4 (amended).  When a document classified as a leaf cannot be parsed,
    the extractor prints the parse error and raises [typer.Exit(1)];
    [extract_all_urls] catches it in the call for that document, prints the
    warning that the source could not be parsed and returns the empty list.
    Nothing is raised to the caller, and the loop of an index that names
    the document goes on with its next entries. *)
Theorem extract_all_urls_malformed_leaf
    (w : World) (source : string) (depth : Z) (visited : gset string)
    (evs : list event) (xml_content : string) :
  source ∉ visited ->
  read_sitemap w source = (evs, Ret xml_content) ->
  fromstring w xml_content = None ->
  extract_all_urls w source depth visited
  = ((Fetch source
        :: evs ++ [Parse source; Parse source; Echo true MsgErrorParsingXML;
                   Echo true (MsgCouldNotParse source (Exit 1))],
      Ret []),
     {[ source ]} ∪ visited)
  /\ forall rest all_urls,
       result (for_children (fun child => extract_all_urls w child depth)
                 (source :: rest) all_urls visited)
       = result (for_children (fun child => extract_all_urls w child depth)
                   rest all_urls ({[ source ]} ∪ visited)).
Proof.
  intros Hnot Hread Hparse.
  pose proof (extract_all_urls_parse_failed w source depth visited evs
                xml_content Hnot Hread Hparse) as Hrun.
  split; [exact Hrun|].
  intros rest all_urls. rewrite result_for_children_cons, Hrun.
  cbn. now rewrite app_nil_r.
Qed.

Lemma extract_all_urls_malformed_leaf_witness :
  extract_all_urls Scenario.world "bad.xml" 1 {[ "mixed.xml" ]}
  = (([Fetch "bad.xml"; Parse "bad.xml"; Parse "bad.xml";
       Echo true MsgErrorParsingXML;
       Echo true (MsgCouldNotParse "bad.xml" (Exit 1))],
      Ret []),
     {[ "bad.xml" ]} ∪ {[ "mixed.xml" ]}).
Proof.
  apply (extract_all_urls_malformed_leaf Scenario.world "bad.xml" 1
           {[ "mixed.xml" ]} [] Scenario.bad_xml).
  - apply not_elem_of_singleton. discriminate.
  - vm_compute. reflexivity.
  - vm_compute. reflexivity.
Defined.

(** ** Failed retrievals and the command *)

(** The server answers 503 three times to the top-level source: the
    resolver returns the empty list, it raises nothing. *)
Lemma top_level_fetch_failure_counterexample :
  snd (read_sitemap Scenario.world Scenario.remote)
    = Raise (RequestException (FailedAfter3 Scenario.remote None))
  /\ snd (extract_all_urls_call Scenario.world Scenario.remote) = Ret []
  /\ ~ (exists e,
          snd (extract_all_urls_call Scenario.world Scenario.remote)
            = Raise e).
Proof.
  repeat split; try (vm_compute; reflexivity).
  intros [e He]. vm_compute in He. discriminate.
Qed.

(** C6 (amended).  When the fetch of the top-level source fails (after the
    automated attempts and, where it applies, the interactive fallback),
    the resolver catches the error: it prints a warning and returns the
    empty list to its caller.  The command then reports that no URL was
    found and raises [typer.Exit(1)], which its own handler catches,
    prints and raises again: after the line of the public IP and the events
    of the fetch, the run prints the warning, [No URLs found in the
    sitemap.] and the error line, and the process exits with status 1. *)
Theorem top_level_fetch_failure
    (w : World) (source : string) (output : option string) (format : string)
    (evs : list event) (why : request_failure) :
  read_sitemap w source = (evs, Raise (RequestException why)) ->
  extract_all_urls_call w source
    = (Fetch source
         :: evs ++ [Echo true (MsgCouldNotFetch source (RequestException why))],
       Ret [])
  /\ main w (Some source) output format false
     = (fst (log_public_ip w)
          ++ Fetch source
          :: evs
          ++ [Echo true (MsgCouldNotFetch source (RequestException why));
              Echo true MsgNoURLs;
              Echo true (MsgError (Exit 1))],
        Raise (Exit 1))
  /\ exit_status (main w (Some source) output format false) = 1.
Proof.
  intros Hread.
  assert (extract_all_urls_call w source
          = (Fetch source
               :: evs
               ++ [Echo true (MsgCouldNotFetch source (RequestException why))],
             Ret [])) as Hrun.
  { unfold extract_all_urls_call.
    rewrite (extract_all_urls_fetch_failed w source 0 ∅ evs why);
      [reflexivity|apply not_elem_of_empty|exact Hread]. }
  assert (main w (Some source) output format false
          = (fst (log_public_ip w)
               ++ Fetch source
               :: evs
               ++ [Echo true (MsgCouldNotFetch source (RequestException why));
                   Echo true MsgNoURLs;
                   Echo true (MsgError (Exit 1))],
             Raise (Exit 1))) as Hmain.
  { destruct source as [|c source].
    - unfold read_sitemap in Hread. cbn in Hread.
      destruct (open_read w ""); discriminate.
    - unfold main, log_public_ip.
      destruct (public_ip w) as [e|ip]; cbn;
        unfold extract_and_output; rewrite Hrun; cbn;
        now rewrite <- !app_assoc. }
  split; [exact Hrun|]. split; [exact Hmain|].
  unfold exit_status. now rewrite Hmain.
Qed.

Lemma top_level_fetch_failure_witness :
  extract_all_urls_call Scenario.world Scenario.remote
    = (Fetch Scenario.remote
         :: fst (read_sitemap Scenario.world Scenario.remote)
         ++ [Echo true
               (MsgCouldNotFetch Scenario.remote
                  (RequestException (FailedAfter3 Scenario.remote None)))],
       Ret [])
  /\ main Scenario.world (Some Scenario.remote) None "txt" false
     = (fst (log_public_ip Scenario.world)
          ++ Fetch Scenario.remote
          :: fst (read_sitemap Scenario.world Scenario.remote)
          ++ [Echo true
                (MsgCouldNotFetch Scenario.remote
                   (RequestException (FailedAfter3 Scenario.remote None)));
              Echo true MsgNoURLs;
              Echo true (MsgError (Exit 1))],
        Raise (Exit 1))
  /\ exit_status (main Scenario.world (Some Scenario.remote) None "txt" false)
     = 1.
Proof.
  apply (top_level_fetch_failure Scenario.world Scenario.remote None "txt"
           (fst (read_sitemap Scenario.world Scenario.remote))
           (FailedAfter3 Scenario.remote None)).
  vm_compute. reflexivity.
Defined.

(** C7 (the code at the failing input).  The server answers 503 to each of
    the three attempts and Playwright is not installed: [read_sitemap]
    raises the [RequestException] of the failed fetch, and [last_exc],
    which the message is to report, is [None]: the status of the last
    attempt is not in the error.  [extract_all_urls] prints its warning and
    returns the empty list. *)
Theorem read_sitemap_http_errors_carry_no_cause :
  Forall (fun a => requests_get Scenario.world Scenario.remote a
                   = Response 503 "") (seq 0 3)
  /\ PLAYWRIGHT_AVAILABLE Scenario.world = false
  /\ snd (read_sitemap Scenario.world Scenario.remote)
     = Raise (RequestException (FailedAfter3 Scenario.remote None))
  /\ snd (extract_all_urls_call Scenario.world Scenario.remote) = Ret []
  /\ In (Echo true
           (MsgCouldNotFetch Scenario.remote
              (RequestException (FailedAfter3 Scenario.remote None))))
        (fst (extract_all_urls_call Scenario.world Scenario.remote)).
Proof.
  split; [repeat constructor|].
  repeat split; try (vm_compute; reflexivity).
  vm_compute. auto 20.
Qed.

(** * Further properties of the program *)

(** ** The fetcher *)

Lemma http_gets_app l1 l2 :
  http_gets (l1 ++ l2) = (http_gets l1 + http_gets l2)%nat.
Proof. unfold http_gets. now rewrite List.filter_app, length_app. Qed.

Lemma sleeps_app l1 l2 : sleeps (l1 ++ l2) = (sleeps l1 + sleeps l2)%nat.
Proof. unfold sleeps. now rewrite List.filter_app, length_app. Qed.

Section Fetcher.
Variable w : World.

(** The loop of attempts: it raises nothing; when it returns a text, the
    attempts made are one more than the pauses; when it runs to its end,
    every attempt was made and followed by a pause. *)
Lemma fetch_attempts_counts source todo :
  forall last_exc,
    match fetch_attempts w source todo last_exc with
    | (evs, Ret (inl _)) =>
        http_gets evs = S (sleeps evs) /\ (http_gets evs <= length todo)%nat
    | (evs, Ret (inr _)) =>
        http_gets evs = length todo /\ sleeps evs = length todo
    | (_, Raise _) => False
    end.
Proof.
  induction todo as [|attempt rest IH]; intros last_exc; [now cbn|].
  cbn [fetch_attempts].
  destruct (requests_get w source attempt) as [status_code body|e].
  - destruct (status_code =? 200); [cbn; lia|].
    specialize (IH last_exc).
    destruct (fetch_attempts w source rest last_exc) as [evs [[t|x]|e]];
      cbn in *; unfold http_gets, sleeps in *; cbn; lia.
  - specialize (IH (Some e)).
    destruct (fetch_attempts w source rest (Some e)) as [evs [[t|x]|e']];
      cbn in *; unfold http_gets, sleeps in *; cbn; lia.
Qed.

(** The attempts before the first answer with status 200 fail and are
    followed by a pause; that answer ends the loop. *)
Lemma fetch_attempts_first_success source before attempt after body :
  forall last_exc,
    Forall (fun a => attempt_failed (requests_get w source a) = true) before ->
    requests_get w source attempt = Response 200 body ->
    let run := fetch_attempts w source (before ++ attempt :: after) last_exc in
    snd run = Ret (inl body)
    /\ http_gets (fst run) = S (length before)
    /\ sleeps (fst run) = length before.
Proof.
  induction before as [|a before IH]; intros last_exc Hfail Hok.
  - cbn. rewrite Hok. cbn. auto.
  - apply Forall_cons in Hfail as [Ha Hfail].
    cbn [app fetch_attempts].
    destruct (requests_get w source a) as [status_code t|e]; cbn in Ha.
    + destruct (status_code =? 200); [discriminate|].
      specialize (IH last_exc Hfail Hok). cbn zeta in IH.
      destruct (fetch_attempts w source (before ++ attempt :: after) last_exc)
        as [evs r].
      cbn in *. unfold http_gets, sleeps in *. cbn.
      destruct IH as (-> & -> & ->). auto.
    + specialize (IH (Some e) Hfail Hok). cbn zeta in IH.
      destruct (fetch_attempts w source (before ++ attempt :: after) (Some e))
        as [evs r].
      cbn in *. unfold http_gets, sleeps in *. cbn.
      destruct IH as (-> & -> & ->). auto.
Qed.

(** The browser fallback: what it returns or raises, and that it sends no
    request and makes no pause. *)
Lemma playwright_fallback_outcome source :
  snd (playwright_fallback w source)
  = match playwright w source with
    | SessionBroken e => Raise (RequestException (PlaywrightFailed source e))
    | SessionRun _ (inr page) => Ret page
    | SessionRun _ (inl e) =>
        Raise (RequestException
                 (PlaywrightFailed source
                    (RequestException (PlaywrightFailed source e))))
    end
  /\ http_gets (fst (playwright_fallback w source)) = 0%nat
  /\ sleeps (fst (playwright_fallback w source)) = 0%nat.
Proof.
  unfold playwright_fallback.
  destruct (playwright w source) as [e|[nav|] [e|page]]; cbn; auto.
Qed.

End Fetcher.

(** X2.  For a remote source, the first attempt that is answered with
    status 200 ends the retrieval: [read_sitemap] returns the text of that
    answer, having sent one request per attempt up to it and paused once
    after each failed one; no further request is sent. *)
Theorem read_sitemap_first_success
    (w : World) (source : string) (k : nat) (body : string) :
  is_remote source = true ->
  (k < 3)%nat ->
  (forall a, (a < k)%nat -> attempt_failed (requests_get w source a) = true) ->
  requests_get w source k = Response 200 body ->
  snd (read_sitemap w source) = Ret body
  /\ http_gets (fst (read_sitemap w source)) = S k
  /\ sleeps (fst (read_sitemap w source)) = k.
Proof.
  intros Hremote Hk Hfail Hok. unfold read_sitemap.
  unfold is_remote in Hremote. rewrite Hremote.
  assert (seq 0 3 = seq 0 k ++ k :: seq (S k) (2 - k)) as ->.
  { replace 3%nat with (k + S (2 - k))%nat at 1 by lia.
    now rewrite seq_app. }
  assert (Forall (fun a => attempt_failed (requests_get w source a) = true)
            (seq 0 k)) as Hbefore.
  { apply Forall_forall. intros a Ha. apply Hfail.
    apply list_elem_of_In, in_seq in Ha. lia. }
  pose proof (fetch_attempts_first_success w source (seq 0 k) k
                (seq (S k) (2 - k)) body None Hbefore Hok) as Hloop.
  cbn zeta in Hloop. rewrite length_seq in Hloop.
  destruct (fetch_attempts w source (seq 0 k ++ k :: seq (S k) (2 - k)) None)
    as [evs r].
  cbn in Hloop. destruct Hloop as (-> & Hgets & Hsleeps).
  cbn. now rewrite app_nil_r.
Qed.

Lemma read_sitemap_first_success_witness :
  snd (read_sitemap Scenario.flaky_world Scenario.remote)
    = Ret Scenario.b_xml
  /\ http_gets (fst (read_sitemap Scenario.flaky_world Scenario.remote))
     = 2%nat
  /\ sleeps (fst (read_sitemap Scenario.flaky_world Scenario.remote)) = 1%nat.
Proof.
  apply (read_sitemap_first_success Scenario.flaky_world Scenario.remote 1
           Scenario.b_xml).
  - vm_compute. reflexivity.
  - lia.
  - intros a Ha. assert (a = 0%nat) as -> by lia. reflexivity.
  - reflexivity.
Defined.

(** X3.  One call of [read_sitemap] calls [requests.get] at most three
    times, and at least once when the source is remote; it calls
    [time.sleep] after every failed attempt, the last one included, so the
    pauses are as many as the calls of [requests.get] or one less.  The
    navigation of the browser of the fallback is no call of [requests.get]
    and is not counted.  For a local path [read_sitemap] calls neither and
    prints nothing. *)
Theorem read_sitemap_requests (w : World) (source : string) :
  (http_gets (fst (read_sitemap w source)) <= 3)%nat
  /\ (sleeps (fst (read_sitemap w source))
      <= http_gets (fst (read_sitemap w source))
      <= S (sleeps (fst (read_sitemap w source))))%nat
  /\ (if is_remote source
      then (1 <= http_gets (fst (read_sitemap w source)))%nat
      else fst (read_sitemap w source) = []).
Proof.
  unfold read_sitemap, is_remote.
  destruct (Str.startswith "http://" source || Str.startswith "https://" source).
  - pose proof (fetch_attempts_counts w source (seq 0 3) None) as Hloop.
    destruct (fetch_attempts w source (seq 0 3) None) as [evs [[t|last]|e']];
      [| |contradiction]; cbn [WM.bind WM.ret fst length seq] in *.
    + rewrite app_nil_r. lia.
    + destruct (PLAYWRIGHT_AVAILABLE w).
      * destruct (playwright_fallback_outcome w source) as (_ & Hg & Hs).
        destruct (playwright_fallback w source) as [evs' r].
        cbn -[http_gets sleeps] in *.
        rewrite http_gets_app, sleeps_app. lia.
      * cbn -[http_gets sleeps]. rewrite http_gets_app, sleeps_app.
        cbn. lia.
  - destruct (open_read w source); cbn; repeat split; lia.
Qed.

(** X4.  When the three attempts on a remote source fail and Playwright is
    installed, the browser session decides: the captured page is returned,
    whether the navigation had failed or not; a session that breaks, or a
    capture that fails, ends in a [RequestException] that wraps the cause
    (twice for a failed capture, which is raised inside the guarded
    block). *)
Theorem read_sitemap_playwright (w : World) (source : string) :
  is_remote source = true ->
  Forall (fun a => attempt_failed (requests_get w source a) = true) (seq 0 3) ->
  PLAYWRIGHT_AVAILABLE w = true ->
  snd (read_sitemap w source)
  = match playwright w source with
    | SessionBroken e => Raise (RequestException (PlaywrightFailed source e))
    | SessionRun _ (inr page) => Ret page
    | SessionRun _ (inl e) =>
        Raise (RequestException
                 (PlaywrightFailed source
                    (RequestException (PlaywrightFailed source e))))
    end.
Proof.
  intros Hremote Hall Hpw. unfold read_sitemap.
  unfold is_remote in Hremote. rewrite Hremote.
  pose proof (fetch_attempts_all_fail w source (seq 0 3) None Hall) as Hloop.
  destruct (fetch_attempts w source (seq 0 3) None) as [evs r].
  cbn in Hloop. subst r. cbn [WM.bind]. rewrite Hpw.
  destruct (playwright_fallback_outcome w source) as (Hout & _).
  destruct (playwright_fallback w source) as [evs' r]. cbn in *. exact Hout.
Qed.

Lemma read_sitemap_playwright_witness :
  snd (read_sitemap Scenario.browser_world Scenario.remote)
  = Ret Scenario.a_xml.
Proof.
  apply (read_sitemap_playwright Scenario.browser_world Scenario.remote).
  - vm_compute. reflexivity.
  - repeat constructor.
  - reflexivity.
Defined.

(** ** The resolver *)

Section ResolverMore.
Variable w : World.

(** What [read_sitemap] raises, by the kind of the source. *)
Lemma read_sitemap_raise_cases source e :
  snd (read_sitemap w source) = Raise e ->
  (is_remote source = true /\ is_RequestException e = true)
  \/ (is_remote source = false
      /\ exists descr,
           open_read w source = FileError descr /\ e = OtherException descr).
Proof.
  unfold read_sitemap, is_remote.
  destruct (Str.startswith "http://" source || Str.startswith "https://" source).
  - intros Hraise. left. split; [reflexivity|]. revert Hraise.
    pose proof (fetch_attempts_counts w source (seq 0 3) None) as Hloop.
    destruct (fetch_attempts w source (seq 0 3) None) as [evs [[t|last]|e']];
      [discriminate| |contradiction].
    cbn [WM.bind]. destruct (PLAYWRIGHT_AVAILABLE w).
    + destruct (playwright_fallback_outcome w source) as (Hout & _).
      destruct (playwright_fallback w source) as [evs' r]. cbn in *.
      subst r. intros Hraise.
      destruct (playwright w source) as [e0|nav [e0|page]];
        try discriminate; now injection Hraise as <-.
    + cbn. intros Hraise. now injection Hraise as <-.
  - intros Hraise. right. split; [reflexivity|].
    destruct (open_read w source) as [content|descr]; [discriminate|].
    exists descr. cbn in Hraise. now injection Hraise as <-.
Qed.

(** The classifier raises nothing, and answers "index" only for a document
    that the parser accepts. *)
Lemma is_sitemap_index_cases xml_content :
  exists is_index,
    is_sitemap_index w xml_content = ([], Ret is_index)
    /\ (is_index = true -> exists root, fromstring w xml_content = Some root).
Proof.
  unfold is_sitemap_index, ET_fromstring.
  destruct (fromstring w xml_content) as [root|]; cbn; eauto.
  eexists. split; [reflexivity|discriminate].
Qed.

(** On a document that the parser accepts the extractor of an index
    returns. *)
Lemma extract_sitemaps_from_index_returns xml_content root :
  fromstring w xml_content = Some root ->
  exists child_sitemaps,
    extract_sitemaps_from_index w xml_content = ([], Ret child_sitemaps).
Proof.
  intros Hparse. unfold extract_sitemaps_from_index, ET_fromstring.
  rewrite Hparse. cbn [WM.try_except WM.ret WM.bind].
  destruct (Str.startswith "{" (tag root)); cbn [findall].
  - rewrite lookup_singleton_eq. cbn. eauto.
  - cbn. eauto.
Qed.

(** The loop over the children returns, whatever the calls on the children
    do, a list that starts with the URLs it was given. *)
Lemma for_children_returns rec child_sitemaps :
  forall all_urls v,
    exists urls,
      snd (fst (for_children rec child_sitemaps all_urls v))
      = Ret (all_urls ++ urls).
Proof.
  induction child_sitemaps as [|child rest IH]; intros all_urls v.
  - exists []. cbn. now rewrite app_nil_r.
  - cbn [for_children]. unfold MM.bind, MM.echo, MM.attempt, MM.lift. cbn.
    destruct (rec child v) as [[evs [found|e]] v1]; cbn.
    + destruct (IH (all_urls ++ found) v1) as [urls Hurls].
      destruct (for_children rec rest (all_urls ++ found) v1)
        as [[evs2 r2] v2].
      cbn in *. exists (found ++ urls). now rewrite app_assoc.
    + destruct (IH all_urls v1) as [urls Hurls].
      destruct (for_children rec rest all_urls v1) as [[evs2 r2] v2].
      cbn in *. eauto.
Qed.

(** After a call the source is in the visited set. *)
Lemma extract_all_urls_marks_source source depth v :
  source ∈ snd (extract_all_urls w source depth v).
Proof.
  rewrite extract_all_urls_unfold.
  unfold extract_all_urls_body, MM.bind, MM.contains, MM.attempt, MM.lift,
    MM.tell, MM.add, MM.echo, MM.ret, MM.raise, WM.ret; cbn.
  destruct (bool_decide_reflect (source ∈ v)) as [Hin|Hnot]; cbn;
    [exact Hin|].
  destruct (read_sitemap w source) as [evs [xml|e]]; cbn.
  2:{ destruct (is_RequestException e); cbn; set_solver. }
  destruct (is_sitemap_index w xml) as [evi [[|]|e]]; cbn; [| |set_solver].
  - destruct (MAX_SITEMAP_DEPTH <=? depth); cbn; [set_solver|].
    destruct (extract_sitemaps_from_index w xml) as [evx [cs|e]]; cbn;
      [|set_solver].
    pose proof (for_children_visits_once
                  (fun child => extract_all_urls w child (depth + 1))
                  (fun child v' => extract_all_urls_visits_once w child
                                     (depth + 1) v')
                  cs [] ({[source]} ∪ v)) as [Hsub _].
    destruct (for_children _ cs [] ({[source]} ∪ v)) as [[evc rc] vc].
    cbn in *. set_solver.
  - destruct (extract_urls_from_sitemap w xml) as [evx [urls|e]]; cbn;
      set_solver.
Qed.

End ResolverMore.

(** X1.  The class of what [read_sitemap] raises tells a remote source from
    a local one: for a locator that starts with [http://] or [https://]
    every failure is a [requests.RequestException], for a path none is. *)
Theorem read_sitemap_exception_class (w : World) (source : string) (e : exn) :
  snd (read_sitemap w source) = Raise e ->
  is_RequestException e = is_remote source.
Proof.
  intros Hraise.
  destruct (read_sitemap_raise_cases w source e Hraise)
    as [[-> ->]|(-> & descr & _ & ->)]; reflexivity.
Qed.

Lemma read_sitemap_exception_class_witness :
  is_RequestException
    (RequestException (FailedAfter3 Scenario.remote None))
  = is_remote Scenario.remote.
Proof.
  apply (read_sitemap_exception_class Scenario.world Scenario.remote).
  vm_compute. reflexivity.
Defined.

(** X5.  [extract_all_urls] raises in one case only: its own source is a
    local path that was not visited before and cannot be read; what it
    raises is then the error of the file.  A failed retrieval of a remote
    source, a document that cannot be parsed, the depth limit and whatever
    happens below the source never reach the caller. *)
Theorem extract_all_urls_raises_iff
    (w : World) (source : string) (depth : Z) (visited : gset string)
    (e : exn) :
  snd (fst (extract_all_urls w source depth visited)) = Raise e
  <-> ((source ∉ visited)
       /\ is_remote source = false
       /\ exists descr,
            open_read w source = FileError descr /\ e = OtherException descr).
Proof.
  rewrite extract_all_urls_unfold.
  unfold extract_all_urls_body, MM.bind, MM.contains, MM.attempt, MM.lift,
    MM.tell, MM.add, MM.echo, MM.ret, MM.raise, WM.ret; cbn.
  destruct (bool_decide_reflect (source ∈ visited)) as [Hin|Hnot]; cbn.
  { split; [discriminate|]. now intros [Hnot _]. }
  pose proof (read_sitemap_raise_cases w source) as Hcases.
  destruct (read_sitemap w source) as [evs [xml|e0]] eqn:Hread; cbn in *.
  - split.
    + destruct (is_sitemap_index_cases w xml) as (is_index & -> & Hroot).
      cbn. destruct is_index.
      * destruct (MAX_SITEMAP_DEPTH <=? depth); cbn; [discriminate|].
        destruct (Hroot eq_refl) as [root Hparse].
        destruct (extract_sitemaps_from_index_returns w xml root Hparse)
          as [cs ->].
        cbn.
        destruct (for_children_returns
                    (fun child => extract_all_urls w child (depth + 1))
                    cs [] ({[source]} ∪ visited)) as [urls Hurls].
        destruct (for_children _ cs [] ({[source]} ∪ visited))
          as [[evc rc] vc].
        cbn in *. subst rc. discriminate.
      * destruct (extract_urls_from_sitemap w xml) as [evx [urls|e1]];
          discriminate.
    + intros (_ & Hlocal & descr & Hopen & _). exfalso.
      unfold read_sitemap in Hread. unfold is_remote in Hlocal.
      rewrite Hlocal, Hopen in Hread. discriminate.
  - destruct (Hcases e0 eq_refl) as [[Hremote Hclass]|(Hlocal & descr & Hopen & ->)].
    + rewrite Hclass. cbn. split; [discriminate|].
      intros (_ & Hlocal & _). congruence.
    + cbn. split.
      * intros Hraise. injection Hraise as <-. eauto 6.
      * intros (_ & _ & descr' & Hopen' & ->). congruence.
Qed.

(** X6.  The loop over the children of an index never raises, whatever the
    calls on the children do: it returns the URLs gathered before it,
    followed by the URLs of the children that returned, in the order of the
    children; a child that raised adds none, and each child is called with
    the visited set the child before it left. *)
Theorem for_children_never_raises
    (rec : string -> M (list string)) (child_sitemaps all_urls : list string)
    (visited : gset string) :
  snd (fst (for_children rec child_sitemaps all_urls visited))
  = Ret (all_urls ++ returned_urls rec child_sitemaps visited).
Proof.
  revert all_urls visited.
  induction child_sitemaps as [|child rest IH]; intros all_urls visited.
  - cbn. now rewrite app_nil_r.
  - cbn [for_children returned_urls].
    unfold MM.bind, MM.echo, MM.attempt, MM.lift. cbn.
    destruct (rec child visited) as [[evs [urls|e]] v1]; cbn.
    + specialize (IH (all_urls ++ urls) v1).
      destruct (for_children rec rest (all_urls ++ urls) v1) as [[evs2 r2] v2].
      cbn in *. now rewrite IH, app_assoc.
    + specialize (IH all_urls v1).
      destruct (for_children rec rest all_urls v1) as [[evs2 r2] v2].
      cbn in *. exact IH.
Qed.

(** X7.  A call of [extract_all_urls] only adds to the visited set, and
    leaves its own source in it, whether it returns or raises. *)
Theorem extract_all_urls_visited_grows
    (w : World) (source : string) (depth : Z) (visited : gset string) :
  visited ⊆ snd (extract_all_urls w source depth visited)
  /\ source ∈ snd (extract_all_urls w source depth visited).
Proof.
  split.
  - apply (extract_all_urls_visits_once w source depth visited).
  - apply extract_all_urls_marks_source.
Qed.

(** X8.  An index that names the same child more than once gets the URLs
    of that child once: after the first entry, the further entries with the
    same source add nothing to what the loop returns. *)
Theorem for_children_duplicate_child
    (w : World) (child : string) (rest all_urls : list string) (depth : Z)
    (visited : gset string) :
  result (for_children (fun c => extract_all_urls w c depth)
            (child :: rest) all_urls visited)
  = result (for_children (fun c => extract_all_urls w c depth)
              (child :: List.filter (fun c => negb (String.eqb c child)) rest)
              all_urls visited).
Proof.
  rewrite !result_for_children_cons.
  pose proof (extract_all_urls_marks_source w child depth visited) as Hin.
  destruct (extract_all_urls w child depth visited) as [[evs [urls|e]] v1];
    cbn in *; now apply for_children_skips_visited.
Qed.

(** X9.  The depth limit stops indexes only: a leaf is read at any depth,
    at 20 and beyond too. *)
Theorem extract_all_urls_leaf_any_depth
    (w : World) (source : string) (depth : Z) (visited : gset string)
    (evs evi evx : list event) (xml_content : string) (urls : list string) :
  source ∉ visited ->
  read_sitemap w source = (evs, Ret xml_content) ->
  is_sitemap_index w xml_content = (evi, Ret false) ->
  extract_urls_from_sitemap w xml_content = (evx, Ret urls) ->
  extract_all_urls w source depth visited
  = ((Fetch source :: evs ++ Parse source :: evi ++ Parse source :: evx,
      Ret urls),
     {[ source ]} ∪ visited).
Proof.
  intros Hnot Hread Hindex Hextract. rewrite extract_all_urls_unfold.
  unfold extract_all_urls_body, MM.bind, MM.contains, MM.attempt, MM.lift,
    MM.tell, MM.add, MM.echo, MM.ret, WM.ret.
  cbn. rewrite bool_decide_eq_false_2 by exact Hnot.
  cbn. rewrite Hread. cbn. rewrite Hindex. cbn. rewrite Hextract. cbn.
  now rewrite !app_nil_r.
Qed.

Lemma extract_all_urls_leaf_any_depth_witness :
  extract_all_urls Scenario.world "a.xml" 25 ∅
  = (([Fetch "a.xml"; Parse "a.xml"; Parse "a.xml"],
      Ret ["https://a.test/x"]),
     {[ "a.xml" ]} ∪ ∅).
Proof.
  apply (extract_all_urls_leaf_any_depth Scenario.world "a.xml" 25 ∅
           [] [] [] Scenario.a_xml ["https://a.test/x"]).
  - apply not_elem_of_empty.
  - vm_compute. reflexivity.
  - vm_compute. reflexivity.
  - vm_compute. reflexivity.
Defined.

(** ** The document functions *)





Lemma stripped_texts_trimmed elems : Forall trimmed (stripped_texts elems).
Proof.
  unfold stripped_texts.
  induction elems as [|e elems IH]; [constructor|].
  cbn [List.filter]. destruct (text e) as [[|c s]|] eqn:Htext;
    cbn [truthy]; try exact IH.
  cbn [map]. constructor; [|exact IH].
  unfold text_strip. rewrite Htext. apply strip_trimmed.
Qed.

(** X11.  No string that an extractor returns starts or ends with white
    space, whatever the document. *)
Theorem extract_urls_from_sitemap_trimmed
    (w : World) (xml_content : string) (urls : list string) :
  snd (extract_urls_from_sitemap w xml_content) = Ret urls ->
  Forall trimmed urls.
Proof.
  unfold extract_urls_from_sitemap, ET_fromstring.
  destruct (fromstring w xml_content) as [root|]; [|discriminate].
  cbn [WM.try_except WM.ret WM.bind].
  destruct (Str.startswith "{" (tag root)); cbn [findall].
  - rewrite lookup_singleton_eq. cbn. intros Hret.
    injection Hret as <-. apply stripped_texts_trimmed.
  - cbn. intros Hret. injection Hret as <-. apply stripped_texts_trimmed.
Qed.

Lemma extract_urls_from_sitemap_trimmed_witness :
  Forall trimmed ["https://a.test/x"].
Proof.
  apply (extract_urls_from_sitemap_trimmed Scenario.world Scenario.a_xml).
  vm_compute. reflexivity.
Defined.

(** ** The command *)

Section CommandMore.
Variable w : World.

(** How the guarded block of [main] and [interactive_mode] ends. *)
Lemma extract_and_output_outcome source fmt output done :
  snd (extract_and_output w source fmt output done)
  = match snd (extract_all_urls_call w source) with
    | Ret (url :: urls) =>
        match snd (output_urls w (url :: urls) fmt output), snd done with
        | Ret _, Ret _ => Ret tt
        | _, _ => Raise (Exit 1)
        end
    | _ => Raise (Exit 1)
    end.
Proof.
  unfold extract_and_output.
  destruct (extract_all_urls_call w source) as [evs [[|url urls]|e]];
    cbn; try reflexivity.
  destruct (output_urls w (url :: urls) fmt output) as [evo [[]|e]];
    cbn; try reflexivity.
  destruct done as [evd [[]|e]]; reflexivity.
Qed.

End CommandMore.

(** X12.  Without [--interactive] the command ends with status 0 or 1, and
    with 0 exactly when a non-empty source was given, its resolution
    returned at least one URL, and writing the output raised nothing. *)
Theorem main_exit_status
    (w : World) (source output : option string) (format : string) :
  (exit_status (main w source output format false) = 0
   \/ exit_status (main w source output format false) = 1)
  /\ (exit_status (main w source output format false) = 0
      <-> exists src urls,
            source = Some src /\ src <> ""
            /\ snd (extract_all_urls_call w src) = Ret urls
            /\ urls <> []
            /\ snd (output_urls w urls format output) = Ret tt).
Proof.
  assert (forall m : W unit,
            exit_status (WM.bind (log_public_ip w) (fun _ => m))
            = exit_status m) as Hlog.
  { intros [evs r]. unfold log_public_ip, exit_status.
    destruct (public_ip w); reflexivity. }
  unfold main. cbn [negb]. rewrite Hlog.
  destruct source as [[|c src]|].
  - cbn. split; [now right|]. split; [discriminate|].
    intros (src & urls & Hsrc & Hne & _). injection Hsrc as <-. exfalso; now apply Hne.
  - unfold exit_status. rewrite extract_and_output_outcome.
    destruct (snd (extract_all_urls_call w (String c src)))
      as [[|url urls]|e] eqn:Hrun.
    + split; [now right|]. split; [discriminate|].
      intros (src' & urls' & Hsrc & _ & Hrun' & Hne & _).
      injection Hsrc as <-. rewrite Hrun in Hrun'.
      injection Hrun' as <-. exfalso; now apply Hne.
    + destruct (snd (output_urls w (url :: urls) format output))
        as [[]|e] eqn:Hout; cbn.
      * split; [now left|]. split; [|reflexivity]. intros _.
        exists (String c src), (url :: urls). repeat split; try assumption;
          discriminate.
      * split; [now right|]. split; [discriminate|].
        intros (src' & urls' & Hsrc & _ & Hrun' & _ & Hout').
        injection Hsrc as <-. rewrite Hrun in Hrun'.
        injection Hrun' as <-. rewrite Hout in Hout'. discriminate.
    + split; [now right|]. split; [discriminate|].
      intros (src' & urls' & Hsrc & _ & Hrun' & _).
      injection Hsrc as <-. rewrite Hrun in Hrun'. discriminate.
  - cbn. split; [now right|]. split; [discriminate|].
    intros (src & urls & Hsrc & _). discriminate.
Qed.

(** X13.  With [--interactive] the arguments of the command line are not
    used: the command resolves the source typed at the prompt and ends with
    status 0 exactly when that resolution returned at least one URL and
    writing the output, in the format and to the file typed at the prompts,
    raised nothing; it ends with status 1 otherwise. *)
Theorem main_interactive_exit_status
    (w : World) (source output : option string) (format : string) :
  (exit_status (main w source output format true) = 0
   \/ exit_status (main w source output format true) = 1)
  /\ (exit_status (main w source output format true) = 0
      <-> exists urls,
            snd (extract_all_urls_call w (answer_source (prompts w)))
              = Ret urls
            /\ urls <> []
            /\ snd (output_urls w urls (answer_fmt (prompts w))
                      (answer_output (prompts w)))
               = Ret tt).
Proof.
  assert (forall m : W unit,
            exit_status (WM.bind (log_public_ip w) (fun _ => m))
            = exit_status m) as Hlog.
  { intros [evs r]. unfold log_public_ip, exit_status.
    destruct (public_ip w); reflexivity. }
  unfold main. rewrite Hlog.
  pose proof (extract_and_output_outcome w (answer_source (prompts w))
                (answer_fmt (prompts w)) (answer_output (prompts w))
                (WM.echo false MsgDone)) as Hout.
  unfold interactive_mode, exit_status. cbn zeta.
  destruct (extract_and_output w (answer_source (prompts w))
              (answer_fmt (prompts w)) (answer_output (prompts w))
              (WM.echo false MsgDone)) as [evs r].
  cbn in Hout. subst r. cbn.
  destruct (snd (extract_all_urls_call w (answer_source (prompts w))))
    as [[|url urls]|e] eqn:Hrun; cbn.
  - split; [now right|]. split; [discriminate|].
    intros (urls' & Hrun' & Hne & _). injection Hrun' as <-. exfalso; now apply Hne.
  - destruct (snd (output_urls w (url :: urls) (answer_fmt (prompts w))
                     (answer_output (prompts w)))) as [[]|e] eqn:Hwrite; cbn.
    + split; [now left|]. split; [|reflexivity]. intros _.
      exists (url :: urls). repeat split; [discriminate|exact Hwrite].
    + split; [now right|]. split; [discriminate|].
      intros (urls' & Hrun' & _ & Hwrite'). injection Hrun' as <-.
      rewrite Hwrite in Hwrite'. discriminate.
  - split; [now right|]. split; [discriminate|].
    intros (urls' & Hrun' & _). discriminate.
Qed.



(** ** The output function *)

Lemma lower_char_idempotent c :
  Output.lower_char (Output.lower_char c) = Output.lower_char c.
Proof. destruct c as [[] [] [] [] [] [] [] []]; vm_compute; reflexivity. Qed.

Lemma lower_idempotent s : Output.lower (Output.lower s) = Output.lower s.
Proof.
  induction s as [|c s IH]; [reflexivity|].
  cbn [Output.lower]. now rewrite lower_char_idempotent, IH.
Qed.

Lemma split_one_line c (s : string) :
  all_chars (fun a => negb (Ascii.eqb a c)) s = true ->
  Output.split c s = [s].
Proof.
  induction s as [|a s IH]; [reflexivity|].
  cbn. intros [Ha Hs]%andb_true_iff.
  destruct (Ascii.eqb a c); [discriminate|]. now rewrite IH.
Qed.

Lemma split_append c (s t : string) :
  all_chars (fun a => negb (Ascii.eqb a c)) s = true ->
  Output.split c (s +:+ String c t) = s :: Output.split c t.
Proof.
  induction s as [|a s IH].
  - intros _. rewrite append_nil_l. cbn. now rewrite Ascii.eqb_refl.
  - rewrite append_cons. cbn. intros [Ha Hs]%andb_true_iff.
    destruct (Ascii.eqb a c); [discriminate|]. now rewrite IH.
Qed.

(** Joining with a separator that the items do not hold, then splitting,
    gives the items back, if there is one at least. *)
Lemma split_join c (items : list string) :
  items <> [] ->
  Forall (fun s => all_chars (fun a => negb (Ascii.eqb a c)) s = true) items ->
  Output.split c (Output.join (String c "") items) = items.
Proof.
  induction items as [|x [|y rest] IH]; intros Hne Hall; [contradiction| |].
  - apply Forall_inv in Hall. now apply split_one_line.
  - apply Forall_cons in Hall as [Hx Hall].
    change (Output.join (String c "") (x :: y :: rest))
      with (x +:+ String c "" +:+ Output.join (String c "") (y :: rest)).
    change (String c "" +:+ Output.join (String c "") (y :: rest))
      with (String c (Output.join (String c "") (y :: rest))).
    rewrite split_append by exact Hx. f_equal. now apply IH.
Qed.

Lemma not_in_formats fmt :
  ~ In fmt Output.formats ->
  String.eqb fmt "txt" = false /\ String.eqb fmt "json" = false
  /\ String.eqb fmt "csv" = false /\ String.eqb fmt "xlsx" = false
  /\ String.eqb fmt "yaml" = false.
Proof.
  intros Hnot. unfold Output.formats in Hnot. cbn in Hnot.
  repeat split; apply String.eqb_neq; intros ->; apply Hnot; auto 6.
Qed.

Lemma output_urls_unsupported lib urls fmt output :
  ~ In (Output.lower fmt) Output.formats ->
  Output.output_urls lib urls fmt output
  = ([Output.EchoUnsupported (Output.lower fmt)], Raise (Exit 1)).
Proof.
  intros Hnot. unfold Output.output_urls. cbn zeta.
  destruct (not_in_formats _ Hnot) as (-> & -> & -> & -> & ->). reflexivity.
Qed.

(** X15.  A format that, in lower case, is none of [txt], [json], [csv],
    [xlsx], [yaml] makes [output_urls] print that the format is not
    supported and raise [typer.Exit(1)]; nothing is printed to the standard
    output and no file is written. *)
Theorem output_urls_unsupported_format
    (lib : Output.Library) (urls : list string) (fmt : string)
    (output : option string) :
  ~ In (Output.lower fmt) Output.formats ->
  Output.output_urls lib urls fmt output
  = ([Output.EchoUnsupported (Output.lower fmt)], Raise (Exit 1)).
Proof. apply output_urls_unsupported. Qed.

Lemma output_urls_unsupported_format_witness :
  Output.output_urls Scenario.library ["https://a.test/x"] "PDF"
    (Some "urls.pdf")
  = ([Output.EchoUnsupported "pdf"], Raise (Exit 1)).
Proof.
  apply (output_urls_unsupported_format Scenario.library
           ["https://a.test/x"] "PDF" (Some "urls.pdf")).
  vm_compute. intros H. decompose [or] H; discriminate || contradiction.
Defined.

(** X16.  The format is read without regard to case: [output_urls] does
    with a format what it does with the same format in lower case. *)
Theorem output_urls_case_insensitive
    (lib : Output.Library) (urls : list string) (fmt : string)
    (output : option string) :
  Output.output_urls lib urls fmt output
  = Output.output_urls lib urls (Output.lower fmt) output.
Proof. unfold Output.output_urls. now rewrite lower_idempotent. Qed.

(** X17.  [output_urls] serves one destination: with an output file it
    prints no data to the standard output and writes to that file only;
    without one it writes no file. *)
Theorem output_urls_destination
    (lib : Output.Library) (urls : list string) (fmt : string)
    (output : option string) :
  match output with
  | Some path =>
      Forall (fun e => Output.prints_data e = false
                       /\ (Output.writes_file e = true ->
                           Output.target e = Some path))
             (fst (Output.output_urls lib urls fmt output))
  | None =>
      Forall (fun e => Output.writes_file e = false)
             (fst (Output.output_urls lib urls fmt output))
  end.
Proof.
  unfold Output.output_urls, Output.emit. cbn zeta.
  destruct output as [path|];
    repeat match goal with
           | |- context [if ?b then _ else _] => destruct b
           end;
    cbn; repeat constructor; discriminate.
Qed.

(** X18.  In the format [txt] the content printed has one URL per line:
    when there is a URL at least and no URL holds a line feed, splitting the
    content at the line feeds gives the URLs back, in their order. *)
Theorem output_urls_txt_lines
    (lib : Output.Library) (urls : list string) (fmt : string) :
  Output.lower fmt = "txt" ->
  urls <> [] ->
  Forall (fun url => Output.one_line url = true) urls ->
  exists content,
    Output.output_urls lib urls fmt None = ([Output.Print content], Ret tt)
    /\ Output.split Output.newline content = urls.
Proof.
  intros Hfmt Hne Hlines. unfold Output.output_urls. cbn zeta.
  rewrite Hfmt. cbn [String.eqb Ascii.eqb Bool.eqb Output.emit].
  eexists. split; [reflexivity|].
  now apply (split_join Output.newline).
Qed.

Lemma output_urls_txt_lines_witness :
  exists content,
    Output.output_urls Scenario.library
      ["https://a.test/x"; "https://a.test/y"] "TXT" None
    = ([Output.Print content], Ret tt)
    /\ Output.split Output.newline content
       = ["https://a.test/x"; "https://a.test/y"].
Proof.
  apply (output_urls_txt_lines Scenario.library
           ["https://a.test/x"; "https://a.test/y"] "TXT").
  - vm_compute. reflexivity.
  - discriminate.
  - repeat constructor.
Defined.

(** ** The command and the output function together *)

Section CommandOutput.
Variable w : World.

(** A call on a source that was not visited before fetches it first. *)
Lemma extract_all_urls_fetches_first source depth v :
  source ∉ v ->
  exists evs, fst (fst (extract_all_urls w source depth v))
              = Fetch source :: evs.
Proof.
  intros Hnot. rewrite extract_all_urls_unfold.
  unfold extract_all_urls_body, MM.bind, MM.contains, MM.attempt, MM.lift,
    MM.tell, MM.add, MM.echo, MM.ret, MM.raise, WM.ret; cbn.
  rewrite bool_decide_eq_false_2 by exact Hnot. cbn.
  destruct (read_sitemap w source) as [evs [xml|e]]; cbn.
  2:{ destruct (is_RequestException e); cbn; eauto. }
  destruct (is_sitemap_index w xml) as [evi [[|]|e]]; cbn; eauto.
  - destruct (MAX_SITEMAP_DEPTH <=? depth); cbn; eauto.
    destruct (extract_sitemaps_from_index w xml) as [evx [cs|e]]; cbn; eauto.
    destruct (for_children _ cs [] ({[source]} ∪ v)) as [[evc rc] vc].
    cbn. eauto.
  - destruct (extract_urls_from_sitemap w xml) as [evx [urls|e]]; cbn; eauto.
Qed.

(** The command fetches the source it is given before anything else can
    stop it. *)
Lemma main_fetches_source c src output format :
  (1 <= fetches (String c src)
          (fst (main w (Some (String c src)) output format false)))%nat.
Proof.
  unfold main, extract_and_output, extract_all_urls_call.
  destruct (extract_all_urls_fetches_first (String c src) 0 ∅)
    as [evs Hevs]; [apply not_elem_of_empty|].
  destruct (extract_all_urls w (String c src) 0 ∅) as [[evs0 r] v].
  cbn in Hevs. subst evs0. cbn [fst].
  unfold log_public_ip.
  destruct (public_ip w) as [ipe|ip]; destruct r as [[|url urls]|e]; cbn;
    try destruct (output_urls w (url :: urls) format output) as [evo [[]|e']];
    cbn; unfold fetches; cbn; rewrite bool_decide_eq_true_2 by reflexivity;
    cbn; lia.
Qed.

End CommandOutput.

(** X19.  The format is checked only when the URLs are written: with a
    format that [output_urls] does not know, the command still fetches and
    resolves the source it is given, and then ends with status 1. *)
Theorem main_unsupported_format
    (w : World) (lib : Output.Library) (c : ascii) (src : string)
    (output : option string) (format : string) :
  output_agrees w lib ->
  ~ In (Output.lower format) Output.formats ->
  exit_status (main w (Some (String c src)) output format false) = 1
  /\ (1 <= fetches (String c src)
             (fst (main w (Some (String c src)) output format false)))%nat.
Proof.
  intros Hagrees Hformat. split; [|apply main_fetches_source].
  unfold main, exit_status, log_public_ip.
  pose proof (extract_and_output_outcome w (String c src) format output
                (WM.ret tt)) as Hout.
  destruct (extract_and_output w (String c src) format output (WM.ret tt))
    as [evs r].
  cbn in Hout. subst r.
  assert (forall urls, snd (output_urls w urls format output)
                       = Raise (Exit 1)) as Hwrite.
  { intros urls. rewrite Hagrees.
    now rewrite output_urls_unsupported. }
  destruct (public_ip w) as [ipe|ip];
    destruct (snd (extract_all_urls_call w (String c src)))
      as [[|url urls]|e]; cbn; try reflexivity;
    now rewrite Hwrite.
Qed.

Lemma main_unsupported_format_witness :
  exit_status
    (main (with_output Scenario.library Scenario.world) (Some "a.xml") None
       "pdf" false)
  = 1
  /\ (1 <= fetches "a.xml"
             (fst (main (with_output Scenario.library Scenario.world)
                     (Some "a.xml") None "pdf" false)))%nat.
Proof.
  apply (main_unsupported_format
           (with_output Scenario.library Scenario.world) Scenario.library
           "a" ".xml" None "pdf").
  - intros urls fmt output. reflexivity.
  - vm_compute. intros H. decompose [or] H; discriminate || contradiction.
Defined.

(** X20.  With the format [xlsx] and no output file nothing is written:
    [output_urls] only prints, on the error stream, that XLSX cannot be
    displayed, and returns; so the command, when the resolution found a URL
    at least, ends with status 0 though no URL left the program. *)
Theorem main_xlsx_without_file
    (w : World) (lib : Output.Library) (c : ascii) (src : string)
    (format : string) (url : string) (urls : list string) :
  output_agrees w lib ->
  Output.lower format = "xlsx" ->
  snd (extract_all_urls_call w (String c src)) = Ret (url :: urls) ->
  Output.output_urls lib (url :: urls) format None
    = ([Output.PrintXlsxNotice], Ret tt)
  /\ exit_status (main w (Some (String c src)) None format false) = 0.
Proof.
  intros Hagrees Hformat Hrun.
  assert (Output.output_urls lib (url :: urls) format None
          = ([Output.PrintXlsxNotice], Ret tt)) as Hout.
  { unfold Output.output_urls. cbn zeta. rewrite Hformat. reflexivity. }
  split; [exact Hout|].
  unfold main, exit_status, log_public_ip.
  pose proof (extract_and_output_outcome w (String c src) format None
                (WM.ret tt)) as Hblock.
  destruct (extract_and_output w (String c src) format None (WM.ret tt))
    as [evs r].
  cbn in Hblock. subst r. rewrite Hrun, Hagrees, Hout.
  destruct (public_ip w); reflexivity.
Qed.

Lemma main_xlsx_without_file_witness :
  Output.output_urls Scenario.library ["https://a.test/x"] "xlsx" None
    = ([Output.PrintXlsxNotice], Ret tt)
  /\ exit_status
       (main (with_output Scenario.library Scenario.world) (Some "a.xml")
          None "xlsx" false)
     = 0.
Proof.
  apply (main_xlsx_without_file
           (with_output Scenario.library Scenario.world) Scenario.library
           "a" ".xml" "xlsx" "https://a.test/x" []).
  - intros urls fmt output. reflexivity.
  - reflexivity.
  - vm_compute. reflexivity.
Defined.

(** ** The visited set, child failures, and the URLs returned *)

Lemma records_fetches_quiet v evs : quiet evs -> records_fetches v evs v.
Proof.
  intros Hq s. rewrite (fetches_quiet s evs Hq). split; [auto|].
  intros [H|H]; [exact H|lia].
Qed.

Lemma records_fetches_seq v evs1 v1 evs2 v2 :
  records_fetches v evs1 v1 -> records_fetches v1 evs2 v2 ->
  records_fetches v (evs1 ++ evs2) v2.
Proof.
  intros H1 H2 s. rewrite fetches_app, (H2 s), (H1 s).
  split; [intros [[H|H]|H]|intros [H|H]]; auto; try (right; lia).
  destruct (fetches s evs1); [right; lia|left; right; lia].
Qed.

Lemma records_fetches_block v source evs :
  visit_block source evs -> records_fetches v evs ({[ source ]} ∪ v).
Proof.
  intros (Hf & _ & Hother) s. rewrite elem_of_union, elem_of_singleton.
  destruct (decide (s = source)) as [->|Hne].
  - rewrite Hf. split; [right; lia|auto].
  - destruct (Hother s Hne) as [-> _]. split; [intros [H|H]|intros [H|H]];
      auto; [contradiction|lia].
Qed.

(** Settles that the events of one visit are a [visit_block]. *)
Ltac visit_block_events :=
  (split; [|split; [|intros ? ?; split]]);
  count_events;
  rewrite ?fetches_quiet, ?parses_quiet by assumption;
  rewrite ?bool_decide_eq_true_2 by reflexivity;
  rewrite ?bool_decide_eq_false_2 by congruence;
  lia.

Section VisitedExactly.
Variable w : World.

Lemma for_children_records_fetches rec :
  (forall child v,
     records_fetches v (fst (fst (rec child v))) (snd (rec child v))) ->
  forall child_sitemaps all_urls v,
    records_fetches v
      (fst (fst (for_children rec child_sitemaps all_urls v)))
      (snd (for_children rec child_sitemaps all_urls v)).
Proof.
  intros Hrec child_sitemaps.
  induction child_sitemaps as [|child rest IH]; intros all_urls v.
  - apply records_fetches_quiet, quiet_nil.
  - cbn [for_children]. unfold MM.bind, MM.echo, MM.attempt, MM.lift. simpl.
    specialize (Hrec child v).
    destruct (rec child v) as [[evs [urls|e]] v1]; simpl in *.
    + specialize (IH (all_urls ++ urls) v1).
      destruct (for_children rec rest (all_urls ++ urls) v1) as [[evs2 r2] v2].
      simpl in *.
      apply (records_fetches_seq v [Echo false (MsgChild child)] v
               (evs ++ evs2) v2);
        [apply records_fetches_quiet; auto with quiet|].
      now apply records_fetches_seq with v1.
    + specialize (IH all_urls v1).
      destruct (for_children rec rest all_urls v1) as [[evs2 r2] v2].
      simpl in *.
      apply (records_fetches_seq v [Echo false (MsgChild child)] v
               (evs ++ Echo true (MsgCouldNotParse child e) :: evs2) v2);
        [apply records_fetches_quiet; auto with quiet|].
      apply records_fetches_seq with v1; [exact Hrec|].
      apply (records_fetches_seq v1 [Echo true (MsgCouldNotParse child e)] v1
               evs2 v2); [apply records_fetches_quiet; auto with quiet|exact IH].
Qed.

Lemma body_records_fetches rec source depth :
  (forall child v,
     records_fetches v (fst (fst (rec child v))) (snd (rec child v))) ->
  forall v,
    records_fetches v
      (fst (fst (extract_all_urls_body w rec source depth v)))
      (snd (extract_all_urls_body w rec source depth v)).
Proof.
  intros Hrec v.
  unfold extract_all_urls_body, MM.bind, MM.contains, MM.attempt, MM.lift,
    MM.tell, MM.add, MM.echo, MM.ret, MM.raise, WM.ret; simpl.
  destruct (bool_decide_reflect (source ∈ v)) as [Hin|Hnot]; simpl.
  { apply records_fetches_quiet, quiet_nil. }
  pose proof (quiet_read_sitemap w source) as Hq.
  destruct (read_sitemap w source) as [evs [xml|e]]; simpl in *.
  2:{ destruct (is_RequestException e); simpl;
        apply records_fetches_block; visit_block_events. }
  pose proof (quiet_is_sitemap_index w xml) as Hqi.
  destruct (is_sitemap_index w xml) as [evi [[|]|e]]; simpl in *.
  - destruct (MAX_SITEMAP_DEPTH <=? depth); simpl;
      [apply records_fetches_block; visit_block_events|].
    pose proof (quiet_extract_sitemaps_from_index w xml) as Hqx.
    destruct (extract_sitemaps_from_index w xml) as [evx [cs|e]]; simpl in *;
      [|apply records_fetches_block; visit_block_events].
    pose proof (for_children_records_fetches rec Hrec cs [] ({[source]} ∪ v))
      as Hc.
    destruct (for_children rec cs [] ({[source]} ∪ v)) as [[evc rc] vc];
      simpl in *.
    replace (Fetch source :: evs ++ Parse source :: evi
             ++ Echo false (MsgIndexDetected source) :: Parse source
             :: evx ++ evc)
      with ((Fetch source :: evs ++ Parse source :: evi
             ++ Echo false (MsgIndexDetected source) :: Parse source :: evx)
            ++ evc)
      by (simpl; repeat (rewrite <- app_assoc; simpl); reflexivity).
    apply records_fetches_seq with ({[source]} ∪ v); [|exact Hc].
    apply records_fetches_block; visit_block_events.
  - pose proof (quiet_extract_urls_from_sitemap w xml) as Hqx.
    destruct (extract_urls_from_sitemap w xml) as [evx [cs|e]]; simpl in *;
      apply records_fetches_block; visit_block_events.
  - apply records_fetches_block; visit_block_events.
Qed.

Lemma resolve_records_fetches fuel :
  forall source depth v,
    records_fetches v (fst (fst (resolve w fuel source depth v)))
                    (snd (resolve w fuel source depth v)).
Proof.
  induction fuel as [|fuel IH]; intros source depth v.
  - apply records_fetches_quiet, quiet_nil.
  - cbn [resolve]. apply body_records_fetches. intros child v'. apply IH.
Qed.

(** The URLs of a loop are trimmed when those it starts with and those of
    the calls on the children are. *)
Lemma for_children_trimmed rec :
  (forall child v urls,
     snd (fst (rec child v)) = Ret urls -> Forall trimmed urls) ->
  forall child_sitemaps all_urls v urls,
    Forall trimmed all_urls ->
    snd (fst (for_children rec child_sitemaps all_urls v)) = Ret urls ->
    Forall trimmed urls.
Proof.
  intros Hrec child_sitemaps.
  induction child_sitemaps as [|child rest IH]; intros all_urls v urls Hacc.
  - cbn. intros Hret. now injection Hret as <-.
  - cbn [for_children]. unfold MM.bind, MM.echo, MM.attempt, MM.lift. cbn.
    specialize (Hrec child v).
    destruct (rec child v) as [[evs [found|e]] v1]; cbn in *.
    + specialize (IH (all_urls ++ found) v1 urls).
      destruct (for_children rec rest (all_urls ++ found) v1)
        as [[evs2 r2] v2].
      cbn in *. apply IH. apply Forall_app_2; [exact Hacc|now apply Hrec].
    + specialize (IH all_urls v1 urls Hacc).
      destruct (for_children rec rest all_urls v1) as [[evs2 r2] v2].
      cbn in *. exact IH.
Qed.

Lemma body_trimmed rec source depth :
  (forall child v urls,
     snd (fst (rec child v)) = Ret urls -> Forall trimmed urls) ->
  forall v urls,
    snd (fst (extract_all_urls_body w rec source depth v)) = Ret urls ->
    Forall trimmed urls.
Proof.
  intros Hrec v urls.
  unfold extract_all_urls_body, MM.bind, MM.contains, MM.attempt, MM.lift,
    MM.tell, MM.add, MM.echo, MM.ret, MM.raise, WM.ret; cbn.
  destruct (bool_decide (source ∈ v)); cbn.
  { intros Hret. injection Hret as <-. constructor. }
  destruct (read_sitemap w source) as [evs [xml|e]]; cbn.
  2:{ destruct (is_RequestException e); cbn; [|discriminate].
      intros Hret. injection Hret as <-. constructor. }
  destruct (is_sitemap_index w xml) as [evi [[|]|e]]; cbn; [| |discriminate].
  - destruct (MAX_SITEMAP_DEPTH <=? depth); cbn.
    { intros Hret. injection Hret as <-. constructor. }
    destruct (extract_sitemaps_from_index w xml) as [evx [cs|e]]; cbn;
      [|discriminate].
    pose proof (for_children_trimmed rec Hrec cs [] ({[source]} ∪ v) urls
                  ltac:(constructor)) as Hloop.
    destruct (for_children rec cs [] ({[source]} ∪ v)) as [[evc rc] vc].
    cbn in *. exact Hloop.
  - pose proof (stripped_texts_trimmed) as Htrim.
    destruct (extract_urls_from_sitemap w xml) as [evx [found|e]] eqn:Hx; cbn.
    + intros Hret. injection Hret as <-.
      revert Hx. unfold extract_urls_from_sitemap, ET_fromstring.
      destruct (fromstring w xml) as [root|]; [|discriminate].
      cbn [WM.try_except WM.ret WM.bind].
      destruct (Str.startswith "{" (tag root)); cbn [findall].
      * rewrite lookup_singleton_eq. cbn. intros Hx.
        injection Hx as _ <-. apply Htrim.
      * cbn. intros Hx. injection Hx as _ <-. apply Htrim.
    + intros Hret. injection Hret as <-. constructor.
Qed.

Lemma resolve_trimmed fuel :
  forall source depth v urls,
    snd (fst (resolve w fuel source depth v)) = Ret urls ->
    Forall trimmed urls.
Proof.
  induction fuel as [|fuel IH]; intros source depth v urls.
  - cbn. intros Hret. injection Hret as <-. constructor.
  - cbn [resolve]. apply body_trimmed. intros child v' urls'. apply IH.
Qed.

End VisitedExactly.

(** X21.  After a call of [extract_all_urls] the visited set holds what it
    held before and the sources that the call fetched, and nothing else. *)
Theorem extract_all_urls_visited_is_fetched
    (w : World) (source : string) (depth : Z) (visited : gset string)
    (s : string) :
  s ∈ snd (extract_all_urls w source depth visited)
  <-> (s ∈ visited
       \/ fetches s (fst (fst (extract_all_urls w source depth visited)))
          = 1%nat).
Proof.
  pose proof (resolve_records_fetches w
                (S (Z.to_nat (MAX_SITEMAP_DEPTH - depth))) source depth
                visited s) as Hrec.
  pose proof (extract_all_urls_visits_once w source depth visited)
    as [_ Honce].
  destruct (Honce s) as (Hle & _).
  unfold extract_all_urls in *. rewrite Hrec.
  split; (intros [H|H]; [now left|right; lia]).
Qed.

(** X22.  A child of an index that is a local path and cannot be read does
    not stop the resolution: the call on the child raises the error of the
    file, the loop prints a warning with it and goes on with the next
    children. *)
Theorem for_children_unreadable_child
    (w : World) (child : string) (rest all_urls : list string) (depth : Z)
    (visited : gset string) (descr : string) :
  child ∉ visited ->
  is_remote child = false ->
  open_read w child = FileError descr ->
  extract_all_urls w child depth visited
    = (([Fetch child], Raise (OtherException descr)), {[ child ]} ∪ visited)
  /\ In (Echo true (MsgCouldNotParse child (OtherException descr)))
        (fst (fst (for_children (fun c => extract_all_urls w c depth)
                     (child :: rest) all_urls visited)))
  /\ result (for_children (fun c => extract_all_urls w c depth)
               (child :: rest) all_urls visited)
     = result (for_children (fun c => extract_all_urls w c depth)
                 rest all_urls ({[ child ]} ∪ visited)).
Proof.
  intros Hnot Hlocal Hopen.
  assert (extract_all_urls w child depth visited
          = (([Fetch child], Raise (OtherException descr)),
             {[ child ]} ∪ visited)) as Hrun.
  { rewrite extract_all_urls_unfold.
    unfold extract_all_urls_body, MM.bind, MM.contains, MM.attempt, MM.lift,
      MM.tell, MM.add, MM.echo, MM.ret, MM.raise, WM.ret; cbn.
    rewrite bool_decide_eq_false_2 by exact Hnot. cbn.
    unfold read_sitemap. unfold is_remote in Hlocal.
    rewrite Hlocal, Hopen. reflexivity. }
  split; [exact Hrun|]. split.
  - cbn [for_children]. unfold MM.bind, MM.echo, MM.attempt, MM.lift.
    cbn -[extract_all_urls for_children]. rewrite Hrun.
    cbn -[extract_all_urls for_children].
    destruct (for_children _ rest all_urls ({[child]} ∪ visited))
      as [[evs r] v].
    cbn. auto.
  - rewrite result_for_children_cons, Hrun. reflexivity.
Qed.

Lemma for_children_unreadable_child_witness :
  extract_all_urls Scenario.world "missing.xml" 1 ∅
    = (([Fetch "missing.xml"],
        Raise (OtherException "[Errno 2] No such file or directory")),
       {[ "missing.xml" ]} ∪ ∅)
  /\ In (Echo true
           (MsgCouldNotParse "missing.xml"
              (OtherException "[Errno 2] No such file or directory")))
        (fst (fst (for_children
                     (fun c => extract_all_urls Scenario.world c 1)
                     ["missing.xml"; "b.xml"] [] ∅)))
  /\ result (for_children (fun c => extract_all_urls Scenario.world c 1)
               ["missing.xml"; "b.xml"] [] ∅)
     = result (for_children (fun c => extract_all_urls Scenario.world c 1)
                 ["b.xml"] [] ({[ "missing.xml" ]} ∪ ∅)).
Proof.
  apply (for_children_unreadable_child Scenario.world "missing.xml"
           ["b.xml"] [] 1 ∅ "[Errno 2] No such file or directory").
  - apply not_elem_of_empty.
  - vm_compute. reflexivity.
  - vm_compute. reflexivity.
Defined.

(** X23.  No URL that [extract_all_urls] returns starts or ends with white
    space, whatever documents the resolution meets. *)
Theorem extract_all_urls_trimmed
    (w : World) (source : string) (depth : Z) (visited : gset string)
    (urls : list string) :
  snd (fst (extract_all_urls w source depth visited)) = Ret urls ->
  Forall trimmed urls.
Proof. apply resolve_trimmed. Qed.

Lemma extract_all_urls_trimmed_witness :
  Forall trimmed ["https://a.test/x"; "https://a.test/y"].
Proof.
  apply (extract_all_urls_trimmed Scenario.world "index.xml" 0 ∅).
  vm_compute. reflexivity.
Defined.
